(** * The Treasures of Montezuma 3 archive unpacker ([unpack_data.py])

    A shallow embedding of the unpacker and the properties of its
    decoding pipeline: primitive readers, metadata block, entry loop,
    output naming and the embedded-format converter.

    Conventions of the embedding.
    - A Python [bytes] object is a [list byte].
    - A Python [str] is a Rocq [string] holding the UTF-8 encoding of the
      text; concatenation, comparison with ASCII literals and the tests on
      the separator ["/"] read the same on both sides.
    - Python integers are [N] (all of them are non-negative here, apart
      from the result of [bytes.find], which is a [Z]).
    - A file object ([open(..., "rb")] or [io.BytesIO]) is a [stream]:
      its content and a cursor.
    - Printing, directory creation and file writing are recorded, in
      order, as [event]s; exceptions are values of [exn].
    - The two runtime library calls whose algorithm is not part of the
      program, [zlib.decompress] and [bytes.decode("utf-8",
      errors="replace")], are variables of the section that holds the
      program. *)

From Stdlib.Strings Require Import Byte.
From Stdlib Require Import DecimalString String Ascii.
From Stdlib Require DecimalPos DecimalN.
From stdpp Require Import strings gmap list.

Abbreviation bytes := (list byte).

#[global] Instance byte_eq_decision : EqDecision byte := byte_eq_dec.

(** ** Results, events and the effect monad *)

(** The exceptions the program raises or lets escape. *)
Inductive exn : Type :=
  | EOFError (msg : string)
  | ValueError (msg : string)
  | ValueError_bad_magic (magic : bytes)  (* ValueError(f"bad magic: {magic!r}") *)
  | struct_error                          (* struct.unpack on a short buffer *)
  | zlib_error (msg : string).

Inductive res (A : Type) : Type :=
  | Ok (a : A)
  | Raise (e : exn).
Arguments Ok {A} a.
Arguments Raise {A} e.

(** What the program does to the outside world. *)
Inductive event : Type :=
  | Print (line : string)
  | MakeDirs (path : string)              (* os.makedirs(path, exist_ok=True) *)
  | WriteFile (path : string) (data : bytes).

(** A computation over a mutable object of type [S]: it returns or raises,
    leaves the object in a new state and emits events. The state and the
    events survive an exception. *)
Definition M (S A : Type) : Type := S → res A * S * list event.

Definition ret {S A} (a : A) : M S A := λ s, (Ok a, s, []).

Definition raise {S A} (e : exn) : M S A := λ s, (Raise e, s, []).

Definition bind {S A B} (m : M S A) (k : A → M S B) : M S B :=
  λ s, match m s with
       | (Ok a, s1, o1) =>
           match k a s1 with
           | (r, s2, o2) => (r, s2, o1 ++ o2)
           end
       | (Raise e, s1, o1) => (Raise e, s1, o1)
       end.

Definition emit {S} (ev : event) : M S unit := λ s, (Ok tt, s, [ev]).

Notation "'let*' x := m 'in' k" := (bind m (λ x, k))
  (at level 10, x pattern, k at level 200).
Notation "'run' m 'in' k" := (bind m (λ _, k))
  (at level 10, k at level 200).

(** [[body(x) for x in xs]] for a body that may raise. *)
Fixpoint for_each {S A B} (body : A → M S B) (xs : list A) : M S (list B) :=
  match xs with
  | [] => ret []
  | x :: xs' => let* y := body x in let* ys := for_each body xs' in ret (y :: ys)
  end.

(** [[body for _ in range(n)]]. *)
Definition repeat_n {S B} (n : N) (body : M S B) : M S (list B) :=
  for_each (λ _ : unit, body) (replicate (N.to_nat n) tt).

(** ** File objects *)

Record stream : Type := { content : bytes; position : nat }.

Definition open_bytes (d : bytes) : stream := {| content := d; position := 0 |}.

(** [f.read(n)]: at most [n] bytes from the cursor, which moves past them. *)
Definition read (n : N) : M stream bytes :=
  λ s, let d := take (N.to_nat n) (drop (position s) (content s)) in
       (Ok d, {| content := content s; position := position s + length d |}, []).

(** [f.seek(offset)]. *)
Definition seek (offset : N) : M stream unit :=
  λ s, (Ok tt, {| content := content s; position := N.to_nat offset |}, []).

(** The bytes left between the cursor and the end. *)
Definition remaining (s : stream) : bytes := drop (position s) (content s).

(** ** Python built-ins used by the program *)

(** [struct.unpack("<I", d)[0]] on a buffer of the right size: the
    little-endian value of the bytes. *)
Definition le_value (d : bytes) : N :=
  foldr (λ b acc, (Byte.to_N b + 256 * acc)%N) 0%N d.

(** [struct.unpack("<5I", d)]. *)
Definition unpack_5I (d : bytes) : res (N * N * N * N * N) :=
  if decide (length d = 20) then
    Ok (le_value (take 4 d), le_value (take 4 (drop 4 d)),
        le_value (take 4 (drop 8 d)), le_value (take 4 (drop 12 d)),
        le_value (take 4 (drop 16 d)))
  else Raise struct_error.

(** [data.startswith(p)]. *)
Fixpoint startswith (p data : bytes) : bool :=
  match p, data with
  | [], _ => true
  | _ :: _, [] => false
  | a :: p', b :: data' => if decide (a = b) then startswith p' data' else false
  end.

(** [data.find(magic)]: the lowest index at which [magic] occurs, or -1. *)
Fixpoint find_from (magic data : bytes) (i : Z) : Z :=
  if startswith magic data then i
  else match data with
       | [] => (-1)%Z
       | _ :: data' => find_from magic data' (i + 1)%Z
       end.

Definition find (magic data : bytes) : Z := find_from magic data 0%Z.

(** [str(n)] and [f"{n}"] for a non-negative integer. *)
Definition str_of_int (n : N) : string := NilZero.string_of_uint (N.to_uint n).

(** [f"{n:02d}"]: decimal, padded with zeros on the left to two characters. *)
Definition format_02d (n : N) : string :=
  let s := str_of_int n in
  if decide (String.length s < 2)%nat then "0" +:+ s else s.

(** [s.startswith("/")] and [s.endswith("/")] on [str]. *)
Definition str_startswith_sep (s : string) : bool :=
  match s with
  | String "/" _ => true
  | _ => false
  end.

Fixpoint str_endswith_sep (s : string) : bool :=
  match s with
  | EmptyString => false
  | String c EmptyString => if decide (c = "/"%char) then true else false
  | String _ s' => str_endswith_sep s'
  end.

(** [posixpath.join(a, *p)]: a component that starts with the separator
    discards what precedes it; otherwise it is appended, after a separator
    unless the path so far is empty or already ends with one. *)
Definition join2 (path b : string) : string :=
  if str_startswith_sep b then b
  else if decide (path = "") then path +:+ b
  else if str_endswith_sep path then path +:+ b
  else path +:+ "/" +:+ b.

Definition os_path_join (a : string) (p : list string) : string :=
  foldl join2 a p.

(** [posixpath.dirname(p)]: everything up to the last separator, without
    the trailing separators unless nothing else is left. *)
Fixpoint head_to_last_sep (p : string) : string :=
  match p with
  | EmptyString => ""
  | String c p' =>
      let h := head_to_last_sep p' in
      if decide (h = "") then (if decide (c = "/"%char) then "/" else "")
      else String c h
  end.

Fixpoint all_sep (s : string) : bool :=
  match s with
  | EmptyString => true
  | String c s' => if decide (c = "/"%char) then all_sep s' else false
  end.

Fixpoint rstrip_sep (s : string) : string :=
  match s with
  | EmptyString => ""
  | String c s' =>
      let r := rstrip_sep s' in
      if decide (r = "") then (if decide (c = "/"%char) then "" else String c "")
      else String c r
  end.

Definition os_path_dirname (p : string) : string :=
  let head := head_to_last_sep p in
  if decide (head = "") then head
  else if all_sep head then head
  else rstrip_sep head.

(** [len(x)] as a Python integer. *)
Definition len {A} (l : list A) : N := N.of_nat (length l).

(** ** The converter *)

Section Converter.
Context {S : Type}.

Definition write_converted (out_dir base_name ext : string) (data : bytes)
  : M S unit :=
  let conv_root := os_path_join out_dir ["_converted"; ext] in
  run emit (MakeDirs conv_root) in
  let out_path := os_path_join conv_root [base_name] in
  emit (WriteFile out_path data).

Definition PNG_MAGIC : bytes := [x89; x50; x4e; x47; x0d; x0a; x1a; x0a].
Definition JPEG_MAGIC : bytes := [xff; xd8; xff].
Definition WEBM_MAGIC : bytes := [x1a; x45; xdf; xa3].

Definition magics : list (bytes * string) :=
  [ (PNG_MAGIC, "png");
    (JPEG_MAGIC, "jpg");
    (list_byte_of_string "OGGS", "ogg");
    (list_byte_of_string "RIFF", "wav");
    (list_byte_of_string "DDS ", "dds");
    (WEBM_MAGIC, "webm") ].

(** The loop of [detect_embedded] over a table of signatures: the first
    signature of the table that occurs anywhere in [data] wins. The
    result [(None, None)] of the source is [None]. *)
Fixpoint detect_in (table : list (bytes * string)) (data : bytes)
  : option (string * Z) :=
  match table with
  | [] => None
  | (magic, ext) :: table' =>
      let idx := find magic data in
      if decide (idx ≠ (-1)%Z) then Some (ext, idx) else detect_in table' data
  end.

Definition detect_embedded (data : bytes) : option (string * Z) :=
  detect_in magics data.

Definition maybe_convert (out_dir ext : string) (data : bytes) (name_tag : string)
  : M S unit :=
  if decide (ext = "sound") then
    if startswith (list_byte_of_string "OggS") data then
      write_converted out_dir (name_tag +:+ ".ogg") "sound" data
    else if startswith (list_byte_of_string "RIFF") data then
      write_converted out_dir (name_tag +:+ ".wav") "sound" data
    else ret tt
  else if decide (ext = "texture") then
    if startswith (list_byte_of_string "DDS ") data then
      write_converted out_dir (name_tag +:+ ".dds") "texture" data
    else ret tt
  else if decide (ext = "jimg_texture") then
    if decide (6 < len data)%N then
      let payload := drop 4 data in
      if startswith JPEG_MAGIC payload then
        write_converted out_dir (name_tag +:+ ".jpg") "jimg_texture" payload
      else ret tt
    else ret tt
  else if decide (ext = "gscene") then
    match detect_embedded data with
    | Some (emb_ext, off) =>
        write_converted out_dir (name_tag +:+ "." +:+ emb_ext) "gscene"
          (drop (Z.to_nat off) data)
    | None => ret tt
    end
  else ret tt.
End Converter.

(** ** Runtime library functions, for the worked examples

    The program is stated over any [zlib.decompress] and any decoder of
    text. The two functions below instantiate them where a concrete run is
    evaluated. *)

(** U+FFFD, the replacement character, in UTF-8. *)
Definition REPLACEMENT : bytes := [xef; xbf; xbd].

(** The decoder is between two characters ([Start]) or inside a
    multi-byte sequence: [Need acc k lo hi] has read the bytes [acc], wants
    [k] more, the next one within [lo..hi]. *)
Inductive utf8_state : Type :=
  | Start
  | Need (acc : bytes) (k : nat) (lo hi : N).

Definition utf8_lead (b : byte) : bytes * utf8_state :=
  let n := Byte.to_N b in
  if decide (n < 128)%N then ([b], Start)
  else if decide (n < 194)%N then (REPLACEMENT, Start)
  else if decide (n < 224)%N then ([], Need [b] 1 128 191)
  else if decide (n = 224)%N then ([], Need [b] 2 160 191)
  else if decide (n = 237)%N then ([], Need [b] 2 128 159)
  else if decide (n < 240)%N then ([], Need [b] 2 128 191)
  else if decide (n = 240)%N then ([], Need [b] 3 144 191)
  else if decide (n < 244)%N then ([], Need [b] 3 128 191)
  else if decide (n = 244)%N then ([], Need [b] 3 128 143)
  else (REPLACEMENT, Start).

Definition utf8_step (st : utf8_state) (b : byte) : bytes * utf8_state :=
  match st with
  | Start => utf8_lead b
  | Need acc k lo hi =>
      let n := Byte.to_N b in
      if decide (lo ≤ n ∧ n ≤ hi)%N then
        match k with
        | 0 | 1 => (acc ++ [b], Start)
        | S k' => ([], Need (acc ++ [b]) k' 128 191)
        end
      else
        let '(o, st') := utf8_lead b in (REPLACEMENT ++ o, st')
  end.

Fixpoint utf8_run (st : utf8_state) (d : bytes) : bytes :=
  match d with
  | [] => match st with Start => [] | Need _ _ _ _ => REPLACEMENT end
  | b :: d' => let '(o, st') := utf8_step st b in o ++ utf8_run st' d'
  end.

(** [d.decode("utf-8", errors="replace")], the text given in UTF-8: the
    well-formed sequences are kept, every maximal ill-formed run of a
    sequence becomes one U+FFFD. *)
Definition utf8_replace (d : bytes) : string :=
  string_of_list_byte (utf8_run Start d).

(** Adler-32, the checksum that ends a zlib stream. *)
Definition adler32 (d : bytes) : N :=
  let '(a, b) :=
    foldl (λ '(a, b) x,
             let a' := ((a + Byte.to_N x) mod 65521)%N in
             (a', ((b + a') mod 65521)%N))
          (1%N, 0%N) d in
  (b * 65536 + a)%N.

Definition be_value (d : bytes) : N :=
  foldl (λ acc b, (256 * acc + Byte.to_N b)%N) 0%N d.

Definition Z_DATA_ERROR (msg : string) : string :=
  "Error -3 while decompressing data: " +:+ msg.
Definition Z_BUF_ERROR : string :=
  "Error -5 while decompressing data: incomplete or truncated stream".

(** The DEFLATE blocks of a stream whose blocks are all stored (type 00):
    a header byte, LEN and its complement, LEN bytes; after the final
    block, the Adler-32 of the data. *)
Fixpoint inflate_stored (fuel : nat) (d acc : bytes) : string + bytes :=
  match fuel with
  | O => inl Z_BUF_ERROR
  | S fuel' =>
      match d with
      | [] => inl Z_BUF_ERROR
      | hdr :: d1 =>
          let h := Byte.to_N hdr in
          let btype := ((h / 2) mod 4)%N in
          if decide (btype = 3%N) then inl (Z_DATA_ERROR "invalid block type")
          else if decide (btype ≠ 0%N) then inl "compressed block: not a stored stream"
          else if decide (length d1 < 4) then inl Z_BUF_ERROR
          else
            let ln := le_value (take 2 d1) in
            let nln := le_value (take 2 (drop 2 d1)) in
            if decide (ln + nln ≠ 65535)%N then
              inl (Z_DATA_ERROR "invalid stored block lengths")
            else
              let d2 := drop 4 d1 in
              if decide (len d2 < ln)%N then inl Z_BUF_ERROR
              else
                let acc' := acc ++ take (N.to_nat ln) d2 in
                let d3 := drop (N.to_nat ln) d2 in
                if decide (h mod 2 = 1)%N then
                  if decide (length d3 < 4) then inl Z_BUF_ERROR
                  else if decide (be_value (take 4 d3) = adler32 acc') then inr acc'
                  else inl (Z_DATA_ERROR "incorrect data check")
                else inflate_stored fuel' d3 acc'
      end
  end.

(** [zlib.decompress] on zlib streams made of stored blocks, the ones
    [zlib.compress(data, 0)] writes. Streams with compressed blocks or a
    preset dictionary are outside this function, which reports them as
    errors; the example archives have none. *)
Definition zlib_stored (d : bytes) : string + bytes :=
  match d with
  | cmf :: flg :: d' =>
      let c := Byte.to_N cmf in
      let f := Byte.to_N flg in
      if decide ((c * 256 + f) mod 31 ≠ 0)%N then
        inl (Z_DATA_ERROR "incorrect header check")
      else if decide (c mod 16 ≠ 8)%N then
        inl (Z_DATA_ERROR "unknown compression method")
      else if decide (7 < c / 16)%N then inl (Z_DATA_ERROR "invalid window size")
      else if decide ((f / 32) mod 2 = 1)%N then
        inl "preset dictionary: not a stored stream"
      else inflate_stored (length d') d' []
  | _ => inl Z_BUF_ERROR
  end.

(** ** The primitive decoder *)

Definition read_u32 : M stream N :=
  let* data := read 4 in
  if decide (length data ≠ 4) then raise (EOFError "unexpected EOF")
  else ret (le_value data).

(** Runs a computation on a file object of its own (the [io.BytesIO] of
    [parse_meta]); the object is dropped afterwards. *)
Definition on_stream {S A} (s : stream) (m : M stream A) : M S A :=
  λ s0, match m s with
        | (r, _, o) => (r, s0, o)
        end.

(** Lifts a pure result that may be an exception. *)
Definition lift {S A} (r : res A) : M S A := λ s, (r, s, []).

(** The dictionary returned by [parse_meta]. *)
Record meta : Type := {
  unk0 : N;
  unk1 : N;
  method_name : string;
  exts : list string;
  groups : list string
}.

(** One record of the entry table:
    [(offset, size, ext_id, group_id, method_id)]. *)
Abbreviation entry := (N * N * N * N * N)%type.

Definition RDFZ : bytes := list_byte_of_string "RDFZ".

(** ** Example archives

    Written in the layout of the format, their zlib streams in stored
    blocks. *)

(** An archive with three stored entries, all of group [g] and extension
    [e]: [AAA], [BBB], [CCC]. *)
Definition three_archive : bytes :=
  [ x52; x44; x46; x5a; x03; x00; x00; x00; x6c; x62; x6c; x31; x00; x00; x00; x22;
    x00; x00; x00; x78; x01; x01; x22; x00; xdd; xff; x01; x00; x00; x00; x02; x00;
    x00; x00; x04; x00; x00; x00; x7a; x6c; x69; x62; x01; x00; x00; x00; x01; x00;
    x00; x00; x65; x01; x00; x00; x00; x01; x00; x00; x00; x67; x28; x41; x02; x89;
    x03; x00; x00; x00; x80; x00; x00; x00; x03; x00; x00; x00; x00; x00; x00; x00;
    x00; x00; x00; x00; x00; x00; x00; x00; x83; x00; x00; x00; x03; x00; x00; x00;
    x00; x00; x00; x00; x00; x00; x00; x00; x00; x00; x00; x00; x86; x00; x00; x00;
    x03; x00; x00; x00; x00; x00; x00; x00; x00; x00; x00; x00; x00; x00; x00; x00;
    x41; x41; x41; x42; x42; x42; x43; x43; x43 ].

(** An archive with two entries of group [g] and extension [e]: the first
    declares 7 bytes where 3 are left, the second is [BBB]. *)
Definition skip_archive : bytes :=
  [ x52; x44; x46; x5a; x03; x00; x00; x00; x6c; x62; x6c; x31; x00; x00; x00; x22;
    x00; x00; x00; x78; x01; x01; x22; x00; xdd; xff; x01; x00; x00; x00; x02; x00;
    x00; x00; x04; x00; x00; x00; x7a; x6c; x69; x62; x01; x00; x00; x00; x01; x00;
    x00; x00; x65; x01; x00; x00; x00; x01; x00; x00; x00; x67; x28; x41; x02; x89;
    x02; x00; x00; x00; x6c; x00; x00; x00; x07; x00; x00; x00; x00; x00; x00; x00;
    x00; x00; x00; x00; x00; x00; x00; x00; x6c; x00; x00; x00; x03; x00; x00; x00;
    x00; x00; x00; x00; x00; x00; x00; x00; x00; x00; x00; x00; x42; x42; x42 ].

(** An archive with eight entries over the extensions [e], [sound], [gscene]
    and the groups [g], [s]: a stored block, a deflated block that declares
    4 bytes for 3, a RIFF sound, a scene that holds RIFF before a PNG, an
    entry with an extension index out of range, a deflated block of 2
    bytes, a deflated block that is no zlib stream, and a short read. *)
Definition demo_archive : bytes :=
  [ x52; x44; x46; x5a; x03; x00; x00; x00; x6c; x62; x6c; x49; x00; x00; x00; x3a;
    x00; x00; x00; x78; x01; x01; x3a; x00; xc5; xff; x01; x00; x00; x00; x02; x00;
    x00; x00; x04; x00; x00; x00; x7a; x6c; x69; x62; x03; x00; x00; x00; x01; x00;
    x00; x00; x65; x05; x00; x00; x00; x73; x6f; x75; x6e; x64; x06; x00; x00; x00;
    x67; x73; x63; x65; x6e; x65; x02; x00; x00; x00; x01; x00; x00; x00; x67; x01;
    x00; x00; x00; x73; xc4; xda; x07; xa9; x08; x00; x00; x00; xfc; x00; x00; x00;
    x03; x00; x00; x00; x00; x00; x00; x00; x00; x00; x00; x00; x00; x00; x00; x00;
    xff; x00; x00; x00; x12; x00; x00; x00; x00; x00; x00; x00; x00; x00; x00; x00;
    x01; x00; x00; x00; x11; x01; x00; x00; x08; x00; x00; x00; x01; x00; x00; x00;
    x01; x00; x00; x00; x00; x00; x00; x00; x19; x01; x00; x00; x10; x00; x00; x00;
    x02; x00; x00; x00; x01; x00; x00; x00; x00; x00; x00; x00; x29; x01; x00; x00;
    x00; x00; x00; x00; x07; x00; x00; x00; x00; x00; x00; x00; x00; x00; x00; x00;
    x29; x01; x00; x00; x02; x00; x00; x00; x00; x00; x00; x00; x00; x00; x00; x00;
    x01; x00; x00; x00; x2b; x01; x00; x00; x07; x00; x00; x00; x00; x00; x00; x00;
    x00; x00; x00; x00; x01; x00; x00; x00; x32; x01; x00; x00; x09; x00; x00; x00;
    x00; x00; x00; x00; x00; x00; x00; x00; x00; x00; x00; x00; x41; x41; x41; x04;
    x00; x00; x00; x78; x01; x01; x03; x00; xfc; xff; x42; x42; x42; x01; x8f; x00;
    xc7; x52; x49; x46; x46; x64; x61; x74; x61; x52; x49; x46; x46; x89; x50; x4e;
    x47; x0d; x0a; x1a; x0a; x62; x6f; x64; x79; x01; x02; x03; x00; x00; x00; x00;
    x00; x00; x5a; x5a ].

(** The entry tables of the three archives. *)
Definition three_entries : list entry :=
  [ (128, 3, 0, 0, 0); (131, 3, 0, 0, 0); (134, 3, 0, 0, 0) ]%N.

Definition skip_entries : list entry :=
  [ (108, 7, 0, 0, 0); (108, 3, 0, 0, 0) ]%N.

Definition demo_entries : list entry :=
  [ (252, 3, 0, 0, 0); (255, 18, 0, 0, 1); (273, 8, 1, 1, 0); (281, 16, 2, 1, 0);
    (297, 0, 7, 0, 0); (297, 2, 0, 0, 1); (299, 7, 0, 0, 1); (306, 9, 0, 0, 0) ]%N.

(** The metadata block of [three_archive]: the declared size, then the
    zlib stream. *)
Definition three_meta_comp : bytes := take 49 (drop 15 three_archive).

(** A metadata block whose zlib stream is valid and holds no byte. *)
Definition empty_meta_comp : bytes :=
  [ x00; x00; x00; x00; x78; x01; x01; x00; x00; xff; xff; x00; x00; x00; x01 ].

(** A scene payload with a RIFF signature at offset 0 and a PNG signature
    at offset 4. *)
Definition riff_then_png : bytes :=
  list_byte_of_string "RIFF" ++ PNG_MAGIC ++ list_byte_of_string "body".

(** A sound payload in a RIFF container. *)
Definition riff_sound : bytes := list_byte_of_string "RIFFdata".

(** A file that starts like a ZIP archive. *)
Definition zip_file : bytes := list_byte_of_string "PK" ++ [x03; x04; x14; x00].

Set Default Proof Using "Type".

Section Program.
(** [zlib.decompress]: the decompressed bytes, or the message of the
    [zlib.error] it raises. *)
Variable zlib_decompress : bytes → string + bytes.
(** [bytes.decode("utf-8", errors="replace")]. *)
Variable decode_utf8_replace : bytes → string.

Definition read_len_str : M stream string :=
  let* ln := read_u32 in
  if decide (ln = 0%N) then ret ""
  else
    let* data := read ln in
    if decide (len data ≠ ln) then raise (EOFError "unexpected EOF in string")
    else ret (decode_utf8_replace data).

Definition parse_meta {S} (meta_comp : bytes) : M S meta :=
  if decide (len meta_comp < 4)%N then raise (ValueError "meta_comp too small")
  else
    let meta_uncomp_size := le_value (take 4 meta_comp) in
    match zlib_decompress (drop 4 meta_comp) with
    | inl msg => raise (zlib_error msg)
    | inr meta =>
        run (if decide (len meta ≠ meta_uncomp_size) then
               emit (Print ("[warn] meta uncompressed size mismatch: "
                            +:+ str_of_int (len meta) +:+ " != "
                            +:+ str_of_int meta_uncomp_size))
             else ret tt) in
        on_stream (open_bytes meta)
          (let* unk0 := read_u32 in
           let* unk1 := read_u32 in
           let* method_name := read_len_str in
           let* ext_count := read_u32 in
           let* exts := repeat_n ext_count read_len_str in
           let* group_count := read_u32 in
           let* groups := repeat_n group_count read_len_str in
           ret {| unk0 := unk0; unk1 := unk1; method_name := method_name;
                  exts := exts; groups := groups |})
    end.

(** The names computed for an entry, once the occurrence count of its
    base name is known. *)
Definition name_tag_of (group : string) (count : N) : string :=
  if decide (count = 1%N) then group else group +:+ "_" +:+ format_02d count.

Definition out_path_of (out_dir ext group : string) (count : N) : string :=
  let base_name := group +:+ "." +:+ ext in
  let name_tag := name_tag_of group count in
  os_path_join out_dir
    [ext; if decide (count = 1%N) then base_name else name_tag +:+ "." +:+ ext].

(** The body of the loop of [unpack] for the entry of index [i]. Each
    [continue] of the source is a [ret name_counts]; the dictionary
    [name_counts], mutated in place by the source, is passed along. *)
Definition unpack_entry (out_dir : string) (do_convert : bool)
    (exts groups : list string) (name_counts : gmap string N) (i : N)
    (e : entry) : M stream (gmap string N) :=
  let '(offset, size, ext_id, group_id, method_id) := e in
  if decide (len exts ≤ ext_id ∨ len groups ≤ group_id)%N then
    run emit (Print ("[warn] entry " +:+ str_of_int i +:+ ": bad indices ext="
                     +:+ str_of_int ext_id +:+ " group=" +:+ str_of_int group_id)) in
    ret name_counts
  else
    let ext := nth (N.to_nat ext_id) exts "" in
    let group := nth (N.to_nat group_id) groups "" in
    let base_name := group +:+ "." +:+ ext in
    let count := (default 0 (name_counts !! base_name) + 1)%N in
    let name_counts := <[base_name := count]> name_counts in
    let name_tag := name_tag_of group count in
    let out_path := out_path_of out_dir ext group count in
    run emit (MakeDirs (os_path_dirname out_path)) in
    run seek offset in
    let* blob := read size in
    if decide (len blob ≠ size) then
      run emit (Print ("[warn] entry " +:+ str_of_int i +:+ ": short read at offset "
                       +:+ str_of_int offset)) in
      ret name_counts
    else
      let write_out (data : bytes) : M stream (gmap string N) :=
        run emit (WriteFile out_path data) in
        run (if do_convert then maybe_convert out_dir ext data name_tag else ret tt) in
        ret name_counts in
      if decide (method_id = 1%N) then
        if decide (len blob < 4)%N then
          run emit (Print ("[warn] entry " +:+ str_of_int i
                           +:+ ": blob too small for zlib header")) in
          ret name_counts
        else
          let expected_size := le_value (take 4 blob) in
          match zlib_decompress (drop 4 blob) with
          | inl msg =>
              run emit (Print ("[warn] entry " +:+ str_of_int i +:+ ": zlib error: "
                               +:+ msg)) in
              ret name_counts
          | inr data =>
              run (if decide (len data ≠ expected_size) then
                     emit (Print ("[warn] entry " +:+ str_of_int i +:+ ": size mismatch "
                                  +:+ str_of_int (len data) +:+ " != "
                                  +:+ str_of_int expected_size))
                   else ret tt) in
              write_out data
          end
      else write_out blob.

(** [for i, entry in enumerate(entries)], from index [i] on. *)
Fixpoint unpack_entries (out_dir : string) (do_convert : bool)
    (exts groups : list string) (name_counts : gmap string N) (i : N)
    (entries : list entry) : M stream (gmap string N) :=
  match entries with
  | [] => ret name_counts
  | e :: entries' =>
      let* name_counts' :=
        unpack_entry out_dir do_convert exts groups name_counts i e in
      unpack_entries out_dir do_convert exts groups name_counts' (i + 1)%N entries'
  end.

(** The body of [unpack] on the opened archive [f]. *)
Definition unpack_stream (out_dir : string) (do_convert : bool) : M stream unit :=
  let* magic := read 4 in
  if decide (magic ≠ RDFZ) then raise (ValueError_bad_magic magic)
  else
    run read_len_str in
    let* meta_comp_size := read_u32 in
    let* meta_comp := read meta_comp_size in
    if decide (len meta_comp ≠ meta_comp_size) then
      raise (EOFError "unexpected EOF in meta_comp")
    else
      let* meta := parse_meta meta_comp in
      let exts := exts meta in
      let groups := groups meta in
      let* entry_count := read_u32 in
      let* entries := repeat_n entry_count (let* d := read 20 in lift (unpack_5I d)) in
      run unpack_entries out_dir do_convert exts groups ∅ 0%N entries in
      emit (Print ("Done. Wrote files to: " +:+ out_dir)).

(** [unpack(data_path, out_dir, do_convert)] where the file at
    [data_path] holds [archive]: how the call ends and what it did. *)
Definition unpack (archive : bytes) (out_dir : string) (do_convert : bool)
  : res unit * list event :=
  match unpack_stream out_dir do_convert (open_bytes archive) with
  | (r, _, o) => (r, o)
  end.

(** ** Notions used to state the properties *)

(** The fields of an entry record. *)
Definition offset_of (e : entry) : N := let '(o, _, _, _, _) := e in o.
Definition size_of (e : entry) : N := let '(_, z, _, _, _) := e in z.
Definition ext_id_of (e : entry) : N := let '(_, _, x, _, _) := e in x.
Definition group_id_of (e : entry) : N := let '(_, _, _, g, _) := e in g.
Definition method_id_of (e : entry) : N := let '(_, _, _, _, m) := e in m.

(** Both indices of the entry are inside their tables. *)
Definition in_range (exts groups : list string) (e : entry) : Prop :=
  (ext_id_of e < len exts ∧ group_id_of e < len groups)%N.

Definition ext_name (exts : list string) (e : entry) : string :=
  nth (N.to_nat (ext_id_of e)) exts "".
Definition group_name (groups : list string) (e : entry) : string :=
  nth (N.to_nat (group_id_of e)) groups "".
Definition base_name_of (exts groups : list string) (e : entry) : string :=
  group_name groups e +:+ "." +:+ ext_name exts e.

(** What [f.seek(offset); f.read(size)] returns on a file that holds
    [file]. *)
Definition blob_at (file : bytes) (e : entry) : bytes :=
  take (N.to_nat (size_of e)) (drop (N.to_nat (offset_of e)) file).

(** The cursor moved [n] bytes forward. *)
Definition advance (s : stream) (n : nat) : stream :=
  {| content := content s; position := position s + n |}.

(** The events of [maybe_convert]; they do not depend on the state. *)
Definition convert_events (out_dir ext : string) (data : bytes) (name_tag : string)
  : list event :=
  (maybe_convert (S := unit) out_dir ext data name_tag tt).2.

(** The warning lines of the entry loop. *)
Definition warn_entry (i : N) (what : string) : string :=
  "[warn] entry " +:+ str_of_int i +:+ ":" +:+ what.

(** The block [blob] read for an entry is dropped with a warning. *)
Inductive skipped (e : entry) (blob : bytes) : string → Prop :=
  | skipped_short_read :
      len blob ≠ size_of e →
      skipped e blob (" short read at offset " +:+ str_of_int (offset_of e))
  | skipped_too_small :
      len blob = size_of e → method_id_of e = 1%N → (len blob < 4)%N →
      skipped e blob " blob too small for zlib header"
  | skipped_zlib_error msg :
      len blob = size_of e → method_id_of e = 1%N → ¬ (len blob < 4)%N →
      zlib_decompress (drop 4 blob) = inl msg →
      skipped e blob (" zlib error: " +:+ msg).

(** The block [blob] read for an entry decodes to [data], with the
    warnings [ws] on the way. *)
Inductive decoded (i : N) (e : entry) (blob : bytes) : list event → bytes → Prop :=
  | decoded_stored :
      len blob = size_of e → method_id_of e ≠ 1%N →
      decoded i e blob [] blob
  | decoded_inflated data :
      len blob = size_of e → method_id_of e = 1%N → ¬ (len blob < 4)%N →
      zlib_decompress (drop 4 blob) = inr data →
      decoded i e blob
        (if decide (len data ≠ le_value (take 4 blob)) then
           [Print (warn_entry i (" size mismatch " +:+ str_of_int (len data) +:+ " != "
                                 +:+ str_of_int (le_value (take 4 blob))))]
         else [])
        data.

(** The entries of [es] with both indices in range whose base name
    ["{group}.{ext}"] is [base], extracted or not. *)
Fixpoint occurrences (exts groups : list string) (base : string) (es : list entry)
  : N :=
  match es with
  | [] => 0%N
  | e :: es' =>
      ((if decide (in_range exts groups e ∧ base_name_of exts groups e = base)
        then 1 else 0) + occurrences exts groups base es')%N
  end.

(** The occurrence count the loop gives an entry with indices in range,
    and the dictionary it leaves. *)
Definition next_count (exts groups : list string) (name_counts : gmap string N)
    (e : entry) : N :=
  (default 0 (name_counts !! base_name_of exts groups e) + 1)%N.

Definition counted (exts groups : list string) (name_counts : gmap string N)
    (e : entry) : gmap string N :=
  <[base_name_of exts groups e := next_count exts groups name_counts e]> name_counts.

(** The file object after [f.seek(offset); f.read(size)]. *)
Definition after_read (s : stream) (e : entry) : stream :=
  {| content := content s;
     position := N.to_nat (offset_of e) + length (blob_at (content s) e) |}.

(** The signature [magic] stands at offset [k] of [data]. *)
Definition occurs_at (magic data : bytes) (k : nat) : Prop :=
  startswith magic (drop k data) = true.

(** *** The output tree

    The file system after the run, as far as the program writes it: a
    map from paths, as the program spells them, to what is there. The
    two capabilities the program invokes are taken to succeed. *)
Inductive node : Type :=
  | File (data : bytes)
  | Dir.

(** [os.makedirs(p, exist_ok=True)] is recorded at [p], the directories on
    the way to it being implied; [open(p, "wb")] followed by a write leaves
    a file with the bytes written. *)
Definition apply_event (fs : gmap string node) (ev : event) : gmap string node :=
  match ev with
  | Print _ => fs
  | MakeDirs p => match fs !! p with Some _ => fs | None => <[p := Dir]> fs end
  | WriteFile p d => <[p := File d]> fs
  end.

Definition apply_events (fs : gmap string node) (evs : list event)
  : gmap string node :=
  foldl apply_event fs evs.

(** [p] lies strictly below the directory [root]. *)
Definition inside (root p : string) : Prop :=
  String.prefix (join2 root "") p = true ∧ p ≠ join2 root "".

(** [root] is fresh: nothing lies below it yet. *)
Definition fresh_root (root : string) (fs : gmap string node) : Prop :=
  ∀ p, inside root p → fs !! p = None.

(** *** The scan the specification describes for "gscene" payloads

    A single forward scan that checks every signature of the table at
    each position and returns the earliest match, ties going to the
    order of the table. *)
Fixpoint first_at (table : list (bytes * string)) (data : bytes) : option string :=
  match table with
  | [] => None
  | (magic, ext) :: table' =>
      if startswith magic data then Some ext else first_at table' data
  end.

Fixpoint earliest_match_from (table : list (bytes * string)) (data : bytes) (i : Z)
  : option (string * Z) :=
  match first_at table data with
  | Some ext => Some (ext, i)
  | None =>
      match data with
      | [] => None
      | _ :: data' => earliest_match_from table data' (i + 1)%Z
      end
  end.

Definition earliest_match (data : bytes) : option (string * Z) :=
  earliest_match_from magics data 0%Z.

(** *** The layout of the metadata block

    The serialisation the positional reads of [parse_meta] undo. *)
Definition u32le (n : N) : bytes :=
  [ default x00 (Byte.of_N (n mod 256));
    default x00 (Byte.of_N ((n / 256) mod 256));
    default x00 (Byte.of_N ((n / 65536) mod 256));
    default x00 (Byte.of_N ((n / 16777216) mod 256)) ].

Definition len_str (b : bytes) : bytes := u32le (len b) ++ b.

Definition meta_layout (unk0 unk1 : N) (name : bytes) (exts groups : list bytes)
  : bytes :=
  u32le unk0 ++ u32le unk1 ++ len_str name
    ++ u32le (len exts) ++ concat (len_str <$> exts)
    ++ u32le (len groups) ++ concat (len_str <$> groups).

(** A reader that emits nothing and raises nothing but [EOFError]. *)
Definition is_eof (e : exn) : Prop :=
  e = EOFError "unexpected EOF" ∨ e = EOFError "unexpected EOF in string".

Definition quiet_eof {A} (m : M stream A) : Prop :=
  ∀ s, ∃ r s', m s = (r, s', []) ∧ ∀ e, r = Raise e → is_eof e.

(** A reader that emits nothing and leaves the content of the file alone. *)
Definition silent {A} (m : M stream A) : Prop :=
  ∀ s, ∃ r s', m s = (r, s', []) ∧ content s' = content s.

(** Events that only print. *)
Definition only_prints (o : list event) : Prop :=
  ∀ ev, ev ∈ o → ∃ line, ev = Print line.

(** The text [read_len_str] returns for the bytes [b] of a string. *)
Definition text_of (b : bytes) : string :=
  if decide (b = []) then "" else decode_utf8_replace b.

(** *** The layout of the entry table and of the header *)

(** [struct.pack("<5I", offset, size, ext_id, group_id, method_id)]. *)
Definition entry_layout (e : entry) : bytes :=
  u32le (offset_of e) ++ u32le (size_of e) ++ u32le (ext_id_of e)
    ++ u32le (group_id_of e) ++ u32le (method_id_of e).

(** The five fields of the entry fit in 32 bits. *)
Definition entry_bounded (e : entry) : Prop :=
  (offset_of e < 2 ^ 32 ∧ size_of e < 2 ^ 32 ∧ ext_id_of e < 2 ^ 32
   ∧ group_id_of e < 2 ^ 32 ∧ method_id_of e < 2 ^ 32)%N.

(** What precedes the blocks in an archive: the magic, the label, the
    metadata block with its length, the entry table with its count. *)
Definition header_layout (label meta_comp : bytes) (entries : list entry) : bytes :=
  RDFZ ++ len_str label ++ u32le (len meta_comp) ++ meta_comp
    ++ u32le (len entries) ++ concat (entry_layout <$> entries).

(** Every signature the converter tests, with the extension it gives: the
    table of [detect_embedded] and the Ogg test of the sound branch. *)
Definition signatures : list (bytes * string) :=
  (list_byte_of_string "OggS", "ogg") :: magics.

(** The positional reads of [parse_meta] on the decompressed block. *)
Definition meta_fields : M stream meta :=
  let* unk0 := read_u32 in
  let* unk1 := read_u32 in
  let* method_name := read_len_str in
  let* ext_count := read_u32 in
  let* exts := repeat_n ext_count read_len_str in
  let* group_count := read_u32 in
  let* groups := repeat_n group_count read_len_str in
  ret {| unk0 := unk0; unk1 := unk1; method_name := method_name;
         exts := exts; groups := groups |}.

(** The read of one record of the entry table, and of [n] records. *)
Definition read_entry : M stream entry :=
  let* d := read 20 in lift (unpack_5I d).

Definition read_entries (n : N) : M stream (list entry) := repeat_n n read_entry.

(** The warning of [parse_meta] for a block of [actual] bytes declared
    with [declared] bytes. *)
Definition meta_size_warning (actual declared : N) : list event :=
  if decide (actual = declared) then []
  else [Print ("[warn] meta uncompressed size mismatch: "
               +:+ str_of_int actual +:+ " != " +:+ str_of_int declared)].

(** The file name of the [n]-th occurrence of a base name: unsuffixed for
    the first, with the count on two digits at least for the others. *)
Definition file_name_of (group ext : string) (n : N) : string :=
  if decide (n = 1%N) then group +:+ "." +:+ ext
  else group +:+ "_" +:+ format_02d n +:+ "." +:+ ext.

(** The run [m1] does what [m0] does and possibly more: same result, same
    final state, and the events of [m0] are among those of [m1], in order. *)
Definition extends {S A} (m0 m1 : M S A) : Prop :=
  ∀ s, (m0 s).1 = (m1 s).1 ∧ (m0 s).2 `sublist_of` (m1 s).2.

(** ** Proof steps used throughout *)

(** Settles the tests of the program that the context decides. *)
Ltac settle :=
  repeat match goal with
         | |- context [decide ?P] =>
             first [ rewrite (decide_True (P := P)) by (first [done | lia])
                   | rewrite (decide_False (P := P)) by (first [done | lia]) ]
         end.

(** Membership in a list given by its elements. *)
Ltac in_list :=
  repeat first [ apply list_elem_of_here | apply list_elem_of_further ].

(** * Properties *)

(** ** Streams and the primitive decoder *)

Lemma remaining_advance s n : remaining (advance s n) = drop n (remaining s).
Proof. unfold remaining, advance. simpl. by rewrite drop_drop. Qed.

Lemma content_advance s n : content (advance s n) = content s.
Proof. done. Qed.

Lemma advance_advance s n m : advance (advance s n) m = advance s (n + m).
Proof. unfold advance. simpl. f_equal. lia. Qed.

Lemma read_spec n s :
  read n s =
  (Ok (take (N.to_nat n) (remaining s)),
   advance s (length (take (N.to_nat n) (remaining s))), []).
Proof. done. Qed.

(** [read_u32] returns the little-endian value of the next four bytes and
    moves past them; with fewer than four bytes left it raises [EOFError],
    the cursor at the end. *)
Lemma read_u32_spec s :
  read_u32 s =
  if decide (length (remaining s) < 4) then
    (Raise (EOFError "unexpected EOF"), advance s (length (remaining s)), [])
  else (Ok (le_value (take 4 (remaining s))), advance s 4, []).
Proof.
  unfold read_u32, bind. rewrite read_spec.
  change (N.to_nat 4) with 4%nat.
  pose proof (length_take (remaining s) 4) as Hlen.
  repeat case_decide; try lia.
  - rewrite take_ge by lia. done.
  - unfold ret. simpl. by replace (length (take 4 (remaining s))) with 4%nat by lia.
Qed.

(** C8. [read_len_str] reads one u32 length L. With fewer than four bytes
    left it raises [EOFError]. When L = 0 it returns the empty string and
    the cursor stands right after the length: nothing more was read.
    Otherwise, when at least L bytes follow, it returns the decoding of
    exactly these L bytes, whatever they are, the cursor right after them;
    when fewer than L bytes follow it raises [EOFError]. No other outcome
    exists, and nothing is printed or written. *)
Theorem read_len_str_spec (s : stream) :
  read_len_str s =
  if decide (length (remaining s) < 4) then
    (Raise (EOFError "unexpected EOF"), advance s (length (remaining s)), [])
  else
    let ln := le_value (take 4 (remaining s)) in
    if decide (ln = 0%N) then (Ok "", advance s 4, [])
    else if decide (len (drop 4 (remaining s)) < ln)%N then
      (Raise (EOFError "unexpected EOF in string"),
       advance s (length (remaining s)), [])
    else
      (Ok (decode_utf8_replace (take (N.to_nat ln) (drop 4 (remaining s)))),
       advance s (4 + N.to_nat ln), []).
Proof.
  unfold read_len_str, bind at 1. rewrite read_u32_spec.
  case_decide as H4; [done|].
  cbv zeta. case_decide as H0; [done|].
  unfold bind. rewrite read_spec, remaining_advance, advance_advance.
  set (ln := le_value _) in *. set (rest := drop 4 (remaining s)).
  assert (length (remaining s) = 4 + length rest)%nat as Hrem.
  { unfold rest. rewrite length_drop. lia. }
  pose proof (length_take rest (N.to_nat ln)) as Hlen.
  unfold len in *. unfold raise, ret.
  repeat case_decide; simpl; try lia.
  - do 3 f_equal. lia.
  - do 3 f_equal. lia.
Qed.

(** C7. When the first four bytes of the archive (or all of it, if it is
    shorter) are not [RDFZ], [unpack] raises [ValueError] at once: nothing
    was printed, no directory made, no file written. *)
Theorem unpack_bad_magic (archive : bytes) (out_dir : string) (do_convert : bool) :
  take 4 archive ≠ RDFZ →
  unpack archive out_dir do_convert
  = (Raise (ValueError_bad_magic (take 4 archive)), []).
Proof.
  intros Hmagic. unfold unpack, unpack_stream, bind at 1.
  rewrite read_spec. change (remaining (open_bytes archive)) with archive.
  change (N.to_nat 4) with 4%nat. by case_decide.
Qed.

(** ** The converter *)

Lemma write_converted_spec {S} out_dir base_name ext data (s : S) :
  write_converted out_dir base_name ext data s
  = (Ok tt, s, [MakeDirs (os_path_join out_dir ["_converted"; ext]);
                WriteFile (os_path_join out_dir ["_converted"; ext; base_name]) data]).
Proof. done. Qed.

(** The converter never raises, leaves the state alone, and its events do
    not depend on the state. *)
Lemma maybe_convert_events {S} out_dir ext data name_tag (s : S) :
  maybe_convert out_dir ext data name_tag s
  = (Ok tt, s, convert_events out_dir ext data name_tag).
Proof.
  unfold convert_events, maybe_convert.
  repeat first [ case_decide | case_match ]; by rewrite ?write_converted_spec.
Qed.

Lemma find_from_spec magic data i :
  (find_from magic data i = (-1)%Z ∧ ∀ k, ¬ occurs_at magic data k)
  ∨ (∃ k : nat, find_from magic data i = (i + Z.of_nat k)%Z
       ∧ occurs_at magic data k ∧ ∀ j, (j < k)%nat → ¬ occurs_at magic data j).
Proof.
  unfold occurs_at. revert i. induction data as [|b data IH]; intros i; simpl.
  - destruct (startswith magic []) eqn:E.
    + right. exists 0%nat. rewrite Z.add_0_r. split_and!; [done|done|lia].
    + left. split; [done|]. intros k. rewrite drop_nil. congruence.
  - destruct (startswith magic (b :: data)) eqn:E.
    + right. exists 0%nat. rewrite Z.add_0_r. split_and!; [done|done|lia].
    + destruct (IH (i + 1)%Z) as [[Hf Hno]|(k & Hf & Hk & Hno)].
      * left. split; [done|]. intros [|k]; simpl; [congruence|apply Hno].
      * right. exists (S k). split_and!; [lia|done|].
        intros [|j] Hj; simpl; [congruence|]. apply Hno. lia.
Qed.

(** [bytes.find]: the lowest offset at which the signature stands, -1 when
    it stands nowhere. *)
Lemma find_spec magic data :
  (find magic data = (-1)%Z ∧ ∀ k, ¬ occurs_at magic data k)
  ∨ (∃ k : nat, find magic data = Z.of_nat k
       ∧ occurs_at magic data k ∧ ∀ j, (j < k)%nat → ¬ occurs_at magic data j).
Proof.
  unfold find. destruct (find_from_spec magic data 0) as [?|(k & ? & ?)]; [by left|].
  right. exists k. by rewrite Z.add_0_l in *.
Qed.

(** The loop of [detect_embedded]: it returns the first signature of the
    table that stands somewhere in the data, at the lowest offset of that
    signature; it returns nothing only when no signature stands anywhere. *)
Lemma detect_in_spec table data :
  match detect_in table data with
  | None => ∀ magic ext k, (magic, ext) ∈ table → ¬ occurs_at magic data k
  | Some (ext, off) =>
      ∃ pre magic post (k : nat),
        table = pre ++ (magic, ext) :: post ∧ off = Z.of_nat k
        ∧ (∀ m e j, (m, e) ∈ pre → ¬ occurs_at m data j)
        ∧ occurs_at magic data k
        ∧ ∀ j, (j < k)%nat → ¬ occurs_at magic data j
  end.
Proof.
  induction table as [|[magic ext] table IH]; simpl.
  - intros ??? Hin. by apply elem_of_nil in Hin.
  - destruct (find_spec magic data) as [[Hf Hno]|(k & Hf & Hk & Hlow)].
    + rewrite Hf. case_decide; [done|].
      destruct (detect_in table data) as [[ext' off]|].
      * destruct IH as (pre & magic' & post & k & -> & -> & Hpre & Hk & Hlow).
        exists ((magic, ext) :: pre), magic', post, k. split_and!; try done.
        intros m e j [[= -> ->]|Hin]%elem_of_cons; [apply Hno|by eapply Hpre].
      * intros m e j [[= -> ->]|Hin]%elem_of_cons; [apply Hno|by eapply IH].
    + rewrite Hf. case_decide; [|lia].
      exists [], magic, table, k. split_and!; try done.
      intros ??? Hin. by apply elem_of_nil in Hin.
Qed.


(** The extensions the converter can recover. *)
Lemma detect_in_ext table data ext off :
  detect_in table data = Some (ext, off) →
  ext ∈ table.*2 ∧ ∃ k : nat, off = Z.of_nat k.
Proof.
  intros Hd. pose proof (detect_in_spec table data) as Hspec. rewrite Hd in Hspec.
  destruct Hspec as (pre & magic & post & k & -> & -> & _).
  split; [|by exists k]. rewrite fmap_app, fmap_cons. simpl.
  apply elem_of_app. right. apply elem_of_cons. by left.
Qed.


(** ** The entry loop *)

Lemma seek_read_spec (e : entry) (s : stream) :
  (run seek (offset_of e) in read (size_of e)) s
  = (Ok (blob_at (content s) e), after_read s e, []).
Proof. done. Qed.

(** An entry with an index out of range: one warning, nothing else, the
    counters untouched. *)
Lemma unpack_entry_bad_indices out_dir do_convert exts groups name_counts i e s :
  ¬ in_range exts groups e →
  unpack_entry out_dir do_convert exts groups name_counts i e s
  = (Ok name_counts, s,
     [Print (warn_entry i (" bad indices ext=" +:+ str_of_int (ext_id_of e)
                           +:+ " group=" +:+ str_of_int (group_id_of e)))]).
Proof.
  destruct e as [[[[offset size] ext_id] group_id] method_id].
  unfold in_range, unpack_entry. simpl. intros Hr.
  case_decide; [done|]. lia.
Qed.

(** An entry with indices in range whose block is dropped: the directory
    of its output path is made, one warning is printed, nothing is
    written, and its base name has been counted. *)
Lemma unpack_entry_skipped out_dir do_convert exts groups name_counts i e s w :
  in_range exts groups e →
  skipped e (blob_at (content s) e) w →
  unpack_entry out_dir do_convert exts groups name_counts i e s
  = (Ok (counted exts groups name_counts e), after_read s e,
     [MakeDirs (os_path_dirname
                  (out_path_of out_dir (ext_name exts e) (group_name groups e)
                     (next_count exts groups name_counts e)));
      Print (warn_entry i w)]).
Proof.
  destruct e as [[[[offset size] ext_id] group_id] method_id].
  unfold in_range, unpack_entry. simpl. intros Hr Hs.
  case_decide; [lia|].
  unfold bind, emit, seek, read. simpl.
  change (take (N.to_nat size) (drop (N.to_nat offset) (content s)))
    with (blob_at (content s) (offset, size, ext_id, group_id, method_id)).
  inversion Hs as [Hlen|Hlen Hm Hsmall|msg Hlen Hm Hsmall Hz]; simpl in *; subst.
  - by settle.
  - by settle.
  - settle. by rewrite Hz.
Qed.

(** An entry with indices in range whose block decodes: the directory is
    made, the warnings of the decoding are printed, the payload is written
    at the output path, then converted if asked. *)
Lemma unpack_entry_decoded out_dir do_convert exts groups name_counts i e s ws data :
  in_range exts groups e →
  decoded i e (blob_at (content s) e) ws data →
  unpack_entry out_dir do_convert exts groups name_counts i e s
  = (Ok (counted exts groups name_counts e), after_read s e,
     [MakeDirs (os_path_dirname
                  (out_path_of out_dir (ext_name exts e) (group_name groups e)
                     (next_count exts groups name_counts e)))]
     ++ ws
     ++ [WriteFile (out_path_of out_dir (ext_name exts e) (group_name groups e)
                      (next_count exts groups name_counts e)) data]
     ++ (if do_convert then
           convert_events out_dir (ext_name exts e) data
             (name_tag_of (group_name groups e) (next_count exts groups name_counts e))
         else [])).
Proof.
  destruct e as [[[[offset size] ext_id] group_id] method_id].
  unfold in_range, unpack_entry. simpl. intros Hr Hd.
  case_decide; [lia|].
  unfold bind, emit, seek, read. simpl.
  change (take (N.to_nat size) (drop (N.to_nat offset) (content s)))
    with (blob_at (content s) (offset, size, ext_id, group_id, method_id)).
  inversion Hd as [Hlen Hm|data' Hlen Hm Hsmall Hz]; simpl in *; subst.
  - settle.
    destruct do_convert; [rewrite maybe_convert_events|];
      simpl; rewrite ?app_nil_r; reflexivity.
  - settle.
    rewrite Hz. unfold bind.
    case_decide; simpl; (destruct do_convert; [rewrite maybe_convert_events|]);
      simpl; rewrite ?app_nil_r; reflexivity.
Qed.

(** Every block is either dropped or decoded, never both. *)
Lemma skipped_or_decoded i e blob :
  (∃ w, skipped e blob w) ∨ (∃ ws data, decoded i e blob ws data).
Proof.
  destruct (decide (len blob = size_of e)) as [Hlen|Hlen];
    [|left; eexists; by apply skipped_short_read].
  destruct (decide (method_id_of e = 1%N)) as [Hm|Hm];
    [|right; do 2 eexists; by apply decoded_stored].
  destruct (decide (len blob < 4)%N) as [Hsmall|Hsmall];
    [left; eexists; by apply skipped_too_small|].
  destruct (zlib_decompress (drop 4 blob)) as [msg|data] eqn:Hz.
  - left. eexists. by eapply skipped_zlib_error.
  - right. do 2 eexists. by eapply decoded_inflated.
Qed.

Lemma skipped_not_decoded i e blob w ws data :
  skipped e blob w → decoded i e blob ws data → False.
Proof.
  intros Hs Hd. inversion Hs; inversion Hd; subst; try done; congruence.
Qed.

(** The loop body never raises, never changes the archive, and counts the
    base name of every entry whose indices are in range, whatever happens
    to its block afterwards. *)
Lemma unpack_entry_ok out_dir do_convert exts groups name_counts i e s :
  ∃ s' o,
    unpack_entry out_dir do_convert exts groups name_counts i e s
    = (Ok (if decide (in_range exts groups e)
           then counted exts groups name_counts e else name_counts), s', o)
    ∧ content s' = content s.
Proof.
  case_decide as Hr.
  - destruct (skipped_or_decoded i e (blob_at (content s) e))
      as [[w Hs]|(ws & data & Hd)].
    + do 2 eexists. split; [by eapply unpack_entry_skipped|done].
    + do 2 eexists. split; [by eapply unpack_entry_decoded|done].
  - do 2 eexists. split; [by eapply unpack_entry_bad_indices|done].
Qed.

Lemma unpack_entries_cons out_dir do_convert exts groups nc i e rest s nc1 s1 o1 :
  unpack_entry out_dir do_convert exts groups nc i e s = (Ok nc1, s1, o1) →
  unpack_entries out_dir do_convert exts groups nc i (e :: rest) s
  = (let '(r, s2, o2) :=
       unpack_entries out_dir do_convert exts groups nc1 (i + 1)%N rest s1 in
     (r, s2, o1 ++ o2)).
Proof. intros He. simpl. unfold bind. by rewrite He. Qed.

(** The loop runs to its end: it returns, the archive is unchanged, and
    each counter has grown by the occurrences of its base name. *)
Lemma unpack_entries_ok out_dir do_convert exts groups es nc i s :
  ∃ nc' s' o,
    unpack_entries out_dir do_convert exts groups nc i es s = (Ok nc', s', o)
    ∧ content s' = content s
    ∧ ∀ base, default 0%N (nc' !! base)
              = (default 0 (nc !! base) + occurrences exts groups base es)%N.
Proof.
  revert nc i s. induction es as [|e es IH]; intros nc i s.
  - exists nc, s, []. split_and!; [done|done|]. intros base. simpl. lia.
  - destruct (unpack_entry_ok out_dir do_convert exts groups nc i e s)
      as (s1 & o1 & He & Hc1).
    destruct (IH (if decide (in_range exts groups e)
                  then counted exts groups nc e else nc) (i + 1)%N s1)
      as (nc' & s' & o & Hes & Hc & Hcount).
    exists nc', s', (o1 ++ o).
    rewrite (unpack_entries_cons _ _ _ _ _ _ _ _ _ _ _ _ He), Hes.
    split_and!; [done|congruence|].
    intros base. rewrite Hcount. simpl.
    destruct (decide (in_range exts groups e)) as [Hr|Hr].
    + unfold counted, next_count.
      destruct (decide (base_name_of exts groups e = base)) as [<-|Hne].
      * rewrite lookup_insert_eq. rewrite decide_True by done. simpl. lia.
      * rewrite lookup_insert_ne by done.
        rewrite decide_False by (intros [_ ?]; done). lia.
    + rewrite decide_False by (intros [? _]; done). lia.
Qed.

(** The loop over [pre ++ es]: the events of [pre], then the loop over
    [es] with the counters [pre] left. *)
Lemma unpack_entries_app out_dir do_convert exts groups pre es nc i s :
  ∃ nc1 s1 o1,
    unpack_entries out_dir do_convert exts groups nc i pre s = (Ok nc1, s1, o1)
    ∧ content s1 = content s
    ∧ (∀ base, default 0%N (nc1 !! base)
               = (default 0 (nc !! base) + occurrences exts groups base pre)%N)
    ∧ unpack_entries out_dir do_convert exts groups nc i (pre ++ es) s
      = (let '(r, s2, o2) :=
           unpack_entries out_dir do_convert exts groups nc1 (i + len pre)%N es s1 in
         (r, s2, o1 ++ o2)).
Proof.
  revert nc i s. induction pre as [|e pre IH]; intros nc i s.
  - exists nc, s, []. split_and!; [done|done|intros; simpl; lia|].
    simpl. unfold len. simpl. rewrite N.add_0_r.
    by destruct (unpack_entries _ _ _ _ _ _ _ _) as [[??]?].
  - destruct (unpack_entry_ok out_dir do_convert exts groups nc i e s)
      as (s0 & o0 & He & Hc0).
    destruct (IH (if decide (in_range exts groups e)
                  then counted exts groups nc e else nc) (i + 1)%N s0)
      as (nc1 & s1 & o1 & Hpre & Hc1 & Hcount & Happ).
    destruct (unpack_entries_ok out_dir do_convert exts groups (e :: pre) nc i s)
      as (nc1' & s1' & o1' & Hpre' & _ & Hcount').
    rewrite (unpack_entries_cons _ _ _ _ _ _ _ _ _ _ _ _ He), Hpre in Hpre'.
    injection Hpre' as <- <- <-.
    exists nc1, s1, (o0 ++ o1). split_and!; [|congruence|done|].
    + by rewrite (unpack_entries_cons _ _ _ _ _ _ _ _ _ _ _ _ He), Hpre.
    + rewrite <- app_comm_cons.
      rewrite (unpack_entries_cons _ _ _ _ _ _ _ _ _ _ _ _ He), Happ.
      replace (i + len (e :: pre))%N with (i + 1 + len pre)%N
        by (unfold len; simpl; lia).
      destruct (unpack_entries _ _ _ _ nc1 _ _ _) as [[??]?].
      by rewrite app_assoc.
Qed.

(** C3. An entry that hits a soft failure (an index out of range, a short
    read of its block, a method-1 block of fewer than 4 bytes, a block
    zlib rejects) writes no file: its events are at most the creation of a
    directory, then exactly one warning that starts with the index of the
    entry. The loop then goes on with the following entries and runs to
    its end without raising. *)
Theorem soft_failure_skips_entry (out_dir : string) (do_convert : bool)
    (exts groups : list string) (nc : gmap string N) (i : N) (e : entry)
    (rest : list entry) (s : stream) :
  let blob := blob_at (content s) e in
  (¬ in_range exts groups e
   ∨ in_range exts groups e
     ∧ (len blob ≠ size_of e
        ∨ len blob = size_of e ∧ method_id_of e = 1%N
          ∧ ((len blob < 4)%N ∨ ∃ msg, zlib_decompress (drop 4 blob) = inl msg))) →
  ∃ nc1 s1 pre w,
    unpack_entry out_dir do_convert exts groups nc i e s
    = (Ok nc1, s1, pre ++ [Print ("[warn] entry " +:+ str_of_int i +:+ ":" +:+ w)])
    ∧ (pre = [] ∨ ∃ d, pre = [MakeDirs d])
    ∧ ∃ nc2 s2 o,
        unpack_entries out_dir do_convert exts groups nc1 (i + 1)%N rest s1
        = (Ok nc2, s2, o)
        ∧ unpack_entries out_dir do_convert exts groups nc i (e :: rest) s
          = (Ok nc2, s2,
             pre ++ [Print ("[warn] entry " +:+ str_of_int i +:+ ":" +:+ w)] ++ o).
Proof.
  intros blob Hfail.
  assert (∃ nc1 s1 pre w,
    unpack_entry out_dir do_convert exts groups nc i e s
    = (Ok nc1, s1, pre ++ [Print (warn_entry i w)])
    ∧ (pre = [] ∨ ∃ d, pre = [MakeDirs d])) as (nc1 & s1 & pre & w & He & Hpre).
  { destruct Hfail as [Hr|[Hr Hblock]].
    - eexists _, _, [], _. split; [by apply unpack_entry_bad_indices|by left].
    - assert (∃ w, skipped e blob w) as [w Hs].
      { destruct Hblock as [Hlen|(Hlen & Hm & [Hsmall|[msg Hz]])].
        - eexists. by apply skipped_short_read.
        - eexists. by apply skipped_too_small.
        - destruct (decide (len blob < 4)%N).
          + eexists. by apply skipped_too_small.
          + eexists. by eapply skipped_zlib_error. }
      eexists _, _, [_], w.
      split; [by apply unpack_entry_skipped|right; by eexists]. }
  exists nc1, s1, pre, w. split_and!; [done|done|].
  destruct (unpack_entries_ok out_dir do_convert exts groups rest nc1 (i + 1)%N s1)
    as (nc2 & s2 & o & Hrest & _).
  exists nc2, s2, o. split; [done|].
  rewrite (unpack_entries_cons _ _ _ _ _ _ _ _ _ _ _ _ He), Hrest.
  by rewrite <- app_assoc.
Qed.

(** C5. For an entry with indices in range whose block was read in full:
    when its method is not 1 the block itself is written, unchanged; when
    its method is 1, the block has at least 4 bytes and zlib decompresses
    what follows them, the decompressed bytes are written, after a
    warning if (and only if) their length differs from the little-endian
    value of the first 4 bytes. *)
Theorem method_decides_decoding (out_dir : string) (do_convert : bool)
    (exts groups : list string) (nc : gmap string N) (i : N) (e : entry)
    (s : stream) :
  let blob := blob_at (content s) e in
  let ext := ext_name exts e in
  let group := group_name groups e in
  let count := next_count exts groups nc e in
  let out_path := out_path_of out_dir ext group count in
  let converted data :=
    if do_convert then convert_events out_dir ext data (name_tag_of group count)
    else [] in
  in_range exts groups e →
  len blob = size_of e →
  (method_id_of e ≠ 1%N →
   (unpack_entry out_dir do_convert exts groups nc i e s).2
   = [MakeDirs (os_path_dirname out_path); WriteFile out_path blob] ++ converted blob)
  ∧ (method_id_of e = 1%N →
     ∀ data, (4 ≤ len blob)%N → zlib_decompress (drop 4 blob) = inr data →
     let expected_size := le_value (take 4 blob) in
     (unpack_entry out_dir do_convert exts groups nc i e s).2
     = [MakeDirs (os_path_dirname out_path)]
       ++ (if decide (len data = expected_size) then []
           else [Print ("[warn] entry " +:+ str_of_int i +:+ ": size mismatch "
                        +:+ str_of_int (len data) +:+ " != "
                        +:+ str_of_int expected_size)])
       ++ [WriteFile out_path data] ++ converted data).
Proof.
  intros blob ext group count out_path converted Hr Hlen. split.
  - intros Hm.
    by rewrite (unpack_entry_decoded _ _ _ _ _ i e s [] blob Hr (decoded_stored _ _ _ Hlen Hm)).
  - intros Hm data Hbig Hz expected_size.
    assert (¬ (len blob < 4)%N) as Hsmall by lia.
    rewrite (unpack_entry_decoded _ _ _ _ _ i e s _ data Hr
               (decoded_inflated _ _ _ _ Hlen Hm Hsmall Hz)).
    simpl. fold blob expected_size. by repeat case_decide.
Qed.

Lemma str_app_assoc (a b c : string) : (a +:+ b) +:+ c = a +:+ b +:+ c.
Proof.
  induction a as [|x a IH]; [done|].
  change (String x ((a +:+ b) +:+ c) = String x (a +:+ b +:+ c)). by f_equal.
Qed.

(** [f"{n:02d}"] has at least two characters. *)
Lemma format_02d_length (n : N) : 2 ≤ String.length (format_02d n).
Proof.
  unfold format_02d. case_decide as Hshort; [|lia].
  assert (str_of_int n ≠ "") as Hne.
  { unfold str_of_int, NilZero.string_of_uint. by destruct (N.to_uint n). }
  destruct (str_of_int n); [done|]. simpl. lia.
Qed.

(** The output path for the first occurrence and for the later ones. *)
Lemma out_path_of_first out_dir ext group :
  out_path_of out_dir ext group 1 = os_path_join out_dir [ext; group +:+ "." +:+ ext].
Proof. done. Qed.

Lemma out_path_of_later out_dir ext group n :
  n ≠ 1%N →
  out_path_of out_dir ext group n
  = os_path_join out_dir [ext; group +:+ "_" +:+ format_02d n +:+ "." +:+ ext].
Proof.
  intros Hn. unfold out_path_of, name_tag_of. rewrite !decide_False by done.
  by rewrite !str_app_assoc.
Qed.

(** C10. The counter of a base name grows for every entry with indices in
    range, before its block is read and whatever becomes of it. So when an
    entry is dropped after the index check (short read, block too small,
    zlib error) and the next entry has the same group and extension names
    and decodes, with no earlier occurrence of the base name, the events
    are: the directory, the warning of the first entry, the directory
    again, then the payload of the second entry written under the suffix
    [_02]; the unsuffixed name is not written. *)
Theorem skipped_entry_consumes_count (out_dir : string) (do_convert : bool)
    (exts groups : list string) (nc : gmap string N) (i : N) (e1 e2 : entry)
    (s : stream) (w : string) (ws : list event) (data : bytes) :
  let ext := ext_name exts e1 in
  let group := group_name groups e1 in
  let base_name := group +:+ "." +:+ ext in
  in_range exts groups e1 →
  in_range exts groups e2 →
  ext_name exts e2 = ext →
  group_name groups e2 = group →
  nc !! base_name = None →
  skipped e1 (blob_at (content s) e1) w →
  decoded (i + 1)%N e2 (blob_at (content s) e2) ws data →
  (∃ s1 o1,
     unpack_entry out_dir do_convert exts groups nc i e1 s
     = (Ok (<[base_name := 1%N]> nc), s1, o1))
  ∧ (unpack_entries out_dir do_convert exts groups nc i [e1; e2] s).2
    = [MakeDirs (os_path_dirname (os_path_join out_dir [ext; base_name]));
       Print ("[warn] entry " +:+ str_of_int i +:+ ":" +:+ w);
       MakeDirs (os_path_dirname
                   (os_path_join out_dir [ext; group +:+ "_02." +:+ ext]))]
      ++ ws
      ++ [WriteFile (os_path_join out_dir [ext; group +:+ "_02." +:+ ext]) data]
      ++ (if do_convert then convert_events out_dir ext data (group +:+ "_02")
          else []).
Proof.
  intros ext group base_name Hr1 Hr2 Hext Hgroup Hfresh Hs Hd.
  pose proof (unpack_entry_skipped out_dir do_convert _ _ nc i e1 s w Hr1 Hs) as H1.
  assert (next_count exts groups nc e1 = 1%N) as Hc1.
  { unfold next_count, base_name_of. fold ext group base_name. by rewrite Hfresh. }
  assert (counted exts groups nc e1 = <[base_name := 1%N]> nc) as Hnc1.
  { unfold counted. rewrite Hc1. reflexivity. }
  rewrite Hc1, Hnc1 in H1. split; [by eauto|].
  assert (content (after_read s e1) = content s) as Hcont by done.
  rewrite <- Hcont in Hd.
  pose proof (unpack_entry_decoded out_dir do_convert _ _ (<[base_name := 1%N]> nc)
                (i + 1)%N e2 _ ws data Hr2 Hd) as H2.
  assert (next_count exts groups (<[base_name := 1%N]> nc) e2 = 2%N) as Hc2.
  { unfold next_count, base_name_of. rewrite Hext, Hgroup. fold base_name.
    rewrite lookup_insert_eq. reflexivity. }
  rewrite Hc2, Hext, Hgroup in H2.
  rewrite (unpack_entries_cons _ _ _ _ _ _ _ _ _ _ _ _ H1).
  rewrite (unpack_entries_cons _ _ _ _ _ _ _ _ _ _ _ _ H2).
  cbn [unpack_entries ret snd]. rewrite app_nil_r.
  rewrite (out_path_of_later _ _ _ 2) by done. reflexivity.
Qed.

(** C4 (amended). In a run that starts with empty counters, an entry with
    indices in range whose block decodes is written, in the directory of
    its extension, under a name fixed by n = 1 + the number of earlier
    entries of the table with indices in range and the same base name
    ["{group}.{extension}"], decoded or not: ["{group}.{extension}"] when
    n = 1, ["{group}_{n:02d}.{extension}"] otherwise. *)
Theorem nth_occurrence_path (out_dir : string) (do_convert : bool)
    (exts groups : list string) (pre : list entry) (e : entry) (post : list entry)
    (s : stream) (ws : list event) (data : bytes) :
  let ext := ext_name exts e in
  let group := group_name groups e in
  let n := (occurrences exts groups (group +:+ "." +:+ ext) pre + 1)%N in
  let file_name :=
    if decide (n = 1%N) then group +:+ "." +:+ ext
    else group +:+ "_" +:+ format_02d n +:+ "." +:+ ext in
  in_range exts groups e →
  decoded (len pre) e (blob_at (content s) e) ws data →
  WriteFile (os_path_join out_dir [ext; file_name]) data
  ∈ (unpack_entries out_dir do_convert exts groups ∅ 0%N (pre ++ e :: post) s).2.
Proof.
  intros ext group n file_name Hr Hd.
  destruct (unpack_entries_app out_dir do_convert exts groups pre (e :: post) ∅ 0%N s)
    as (nc1 & s1 & o1 & _ & Hcont & Hcount & ->).
  rewrite N.add_0_l. rewrite <- Hcont in Hd.
  pose proof (unpack_entry_decoded out_dir do_convert _ _ nc1 _ e _ ws data Hr Hd) as He.
  assert (next_count exts groups nc1 e = n) as Hn.
  { unfold next_count. rewrite Hcount, lookup_empty. done. }
  assert (out_path_of out_dir ext group n = os_path_join out_dir [ext; file_name])
    as Hpath.
  { unfold file_name. case_decide as H1; [by rewrite H1|by apply out_path_of_later]. }
  fold ext group in He. rewrite Hn, Hpath in He.
  rewrite (unpack_entries_cons _ _ _ _ _ _ _ _ _ _ _ _ He).
  destruct (unpack_entries _ _ _ _ _ _ post _) as [[r s2] o2].
  cbn [snd]. apply elem_of_app. right. apply elem_of_app. left.
  apply elem_of_app. right. apply elem_of_app. right.
  apply elem_of_app. left. apply list_elem_of_here.
Qed.

(** ** The metadata block *)

Lemma to_N_of_N_mod (n : N) :
  Byte.to_N (default x00 (Byte.of_N (n mod 256))) = (n mod 256)%N.
Proof.
  destruct (Byte.of_N (n mod 256)) as [b|] eqn:E.
  - by apply Byte.to_of_N.
  - apply Byte.of_N_None_iff in E.
    pose proof (N.mod_upper_bound n 256). lia.
Qed.

(** [struct.unpack("<I", ...)] undoes the little-endian layout of a u32. *)
Lemma le_value_u32le (n : N) : (n < 2 ^ 32)%N → le_value (u32le n) = n.
Proof.
  intros Hn. unfold le_value, u32le. cbn [foldr]. rewrite !to_N_of_N_mod.
  assert (n / 16777216 < 256)%N as H3.
  { apply N.Div0.div_lt_upper_bound. by change (16777216 * 256)%N with (2 ^ 32)%N. }
  rewrite (N.mod_small (n / 16777216) 256) by done.
  pose proof (N.div_mod n 256). pose proof (N.div_mod (n / 256) 256).
  pose proof (N.div_mod (n / 256 / 256) 256).
  rewrite !N.Div0.div_div in *.
  change (256 * 256)%N with 65536%N in *.
  change (65536 * 256)%N with 16777216%N in *. lia.
Qed.

(** A step of a computation that returns without events. *)
Lemma bind_Ok {S A B} (m : M S A) (k : A → M S B) s a s1 :
  m s = (Ok a, s1, []) → bind m k s = k a s1.
Proof. intros Hm. unfold bind. rewrite Hm. by destruct (k a s1) as [[??]?]. Qed.

Lemma bind_Raise {S A B} (m : M S A) (k : A → M S B) s e s1 o :
  m s = (Raise e, s1, o) → bind m k s = (Raise e, s1, o).
Proof. intros Hm. unfold bind. by rewrite Hm. Qed.

Lemma read_u32_layout s n rest :
  (n < 2 ^ 32)%N → remaining s = u32le n ++ rest →
  read_u32 s = (Ok n, advance s 4, []) ∧ remaining (advance s 4) = rest.
Proof.
  intros Hn Hrem. rewrite read_u32_spec, remaining_advance, Hrem.
  rewrite decide_False by (rewrite length_app; simpl; lia).
  change (take 4 (u32le n ++ rest)) with (u32le n).
  by rewrite le_value_u32le.
Qed.

Lemma read_len_str_layout s b rest :
  (len b < 2 ^ 32)%N → remaining s = len_str b ++ rest →
  read_len_str s = (Ok (text_of b), advance s (4 + length b), [])
  ∧ remaining (advance s (4 + length b)) = rest.
Proof.
  intros Hb Hrem. unfold len_str in Hrem. rewrite <- app_assoc in Hrem.
  destruct (read_u32_layout s (len b) (b ++ rest) Hb Hrem) as [Hu Hrem1].
  split.
  - unfold read_len_str. rewrite (bind_Ok _ _ _ _ _ Hu). unfold text_of.
    destruct b as [|x b]; [done|].
    rewrite !decide_False by done.
    rewrite (bind_Ok _ _ _ _ _ (read_spec _ _)), Hrem1.
    unfold len. rewrite Nat2N.id, take_app_length, advance_advance.
    by rewrite decide_False by (intros H; by apply H).
  - rewrite <- (advance_advance s 4 (length b)), remaining_advance, Hrem1.
    by rewrite drop_app_length.
Qed.

Lemma for_each_read_len_str_layout (l : list bytes) s rest :
  Forall (λ b, len b < 2 ^ 32)%N l →
  remaining s = concat (len_str <$> l) ++ rest →
  ∃ s', for_each (λ _ : unit, read_len_str) (replicate (length l) tt) s
        = (Ok (text_of <$> l), s', [])
        ∧ remaining s' = rest.
Proof.
  intros Hl. revert s. induction Hl as [|b l Hb Hl IH]; intros s Hrem.
  - by exists s.
  - simpl in Hrem. rewrite <- app_assoc in Hrem.
    destruct (read_len_str_layout s b _ Hb Hrem) as [Hread Hrem'].
    destruct (IH _ Hrem') as (s' & Hrest & Hrem'').
    exists s'. split; [|done]. cbn [length replicate for_each fmap list_fmap].
    rewrite (bind_Ok _ _ _ _ _ Hread), (bind_Ok _ _ _ _ _ Hrest). done.
Qed.

Lemma quiet_eof_ret {A} (a : A) : quiet_eof (ret a).
Proof. intros s. by exists (Ok a), s. Qed.

Lemma quiet_eof_bind {A B} (m : M stream A) (k : A → M stream B) :
  quiet_eof m → (∀ a, quiet_eof (k a)) → quiet_eof (bind m k).
Proof.
  intros Hm Hk s. destruct (Hm s) as (r & s1 & Hr & He).
  destruct r as [a|e].
  - destruct (Hk a s1) as (r2 & s2 & Hr2 & He2).
    exists r2, s2. by rewrite (bind_Ok _ _ _ _ _ Hr).
  - exists (Raise e), s1. rewrite (bind_Raise _ _ _ _ _ _ Hr). split; [done|].
    intros e0 [= <-]. by apply He.
Qed.

Lemma quiet_eof_read_u32 : quiet_eof read_u32.
Proof.
  intros s. rewrite read_u32_spec.
  case_decide; do 2 eexists; (split; [reflexivity|]);
    intros e He; try discriminate He; injection He as <-; unfold is_eof; auto.
Qed.

Lemma quiet_eof_read n : quiet_eof (read n).
Proof.
  intros s. rewrite read_spec. do 2 eexists. split; [reflexivity|]. by intros e.
Qed.

Lemma quiet_eof_raise {A} e : is_eof e → quiet_eof (raise (A := A) e).
Proof.
  intros He s. exists (Raise e), s. split; [done|]. by intros e' [= <-].
Qed.

Lemma quiet_eof_read_len_str : quiet_eof read_len_str.
Proof.
  apply quiet_eof_bind; [apply quiet_eof_read_u32|]. intros ln.
  case_decide; [apply quiet_eof_ret|].
  apply quiet_eof_bind; [apply quiet_eof_read|]. intros d.
  case_decide; [apply quiet_eof_raise; by right|apply quiet_eof_ret].
Qed.

Lemma quiet_eof_for_each {A B} (body : A → M stream B) (xs : list A) :
  (∀ x, quiet_eof (body x)) → quiet_eof (for_each body xs).
Proof.
  intros Hbody. induction xs as [|x xs IH]; [apply quiet_eof_ret|].
  simpl. apply quiet_eof_bind; [done|]. intros y.
  apply quiet_eof_bind; [done|]. intros ys. apply quiet_eof_ret.
Qed.

(** Shows that a chain of reads emits nothing and raises only [EOFError]. *)
Ltac quiet :=
  repeat first [ apply quiet_eof_read_u32 | apply quiet_eof_read_len_str
               | apply quiet_eof_ret | apply quiet_eof_for_each; intros ?
               | apply quiet_eof_bind; [|intros ?] ].

(** A quiet reader run on a file object of its own. *)
Lemma on_stream_quiet {S A} (m : M stream A) (d : bytes) (s0 : S) :
  quiet_eof m →
  ∃ r, on_stream (open_bytes d) m s0 = (r, s0, []) ∧ ∀ e, r = Raise e → is_eof e.
Proof.
  intros Hm. destruct (Hm (open_bytes d)) as (r & s' & Hr & He).
  exists r. unfold on_stream. by rewrite Hr.
Qed.

(** C6 (amended). [parse_meta] raises [ValueError] on a slice of fewer than
    4 bytes and the error of zlib on a stream it rejects, printing nothing.
    Otherwise it prints the size warning exactly when the length of the
    decompressed bytes differs from the declared one, and then reads the
    decompressed bytes as they are: it can still fail, with [EOFError]
    only, when they end before the last field; and whenever they start
    with the layout of the fields unk0, unk1, method name, extension
    table, group table, in this order, it returns these fields, whatever
    follows them and whatever size was declared. *)
Theorem parse_meta_spec {S : Type} (meta_comp : bytes) (s : S) :
  let declared := le_value (take 4 meta_comp) in
  ((len meta_comp < 4)%N →
   parse_meta meta_comp s = (Raise (ValueError "meta_comp too small"), s, []))
  ∧ (∀ msg, ¬ (len meta_comp < 4)%N →
       zlib_decompress (drop 4 meta_comp) = inl msg →
       parse_meta meta_comp s = (Raise (zlib_error msg), s, []))
  ∧ (∀ meta, ¬ (len meta_comp < 4)%N →
       zlib_decompress (drop 4 meta_comp) = inr meta →
       ∃ r,
         parse_meta meta_comp s
         = (r, s,
            if decide (len meta = declared) then []
            else [Print ("[warn] meta uncompressed size mismatch: "
                         +:+ str_of_int (len meta) +:+ " != "
                         +:+ str_of_int declared)])
         ∧ (∀ e, r = Raise e → is_eof e)
         ∧ (∀ u0 u1 name es gs junk,
              (u0 < 2 ^ 32)%N → (u1 < 2 ^ 32)%N → (len name < 2 ^ 32)%N →
              (len es < 2 ^ 32)%N → (len gs < 2 ^ 32)%N →
              Forall (λ b, len b < 2 ^ 32)%N es →
              Forall (λ b, len b < 2 ^ 32)%N gs →
              meta = meta_layout u0 u1 name es gs ++ junk →
              r = Ok {| unk0 := u0; unk1 := u1; method_name := text_of name;
                        exts := text_of <$> es; groups := text_of <$> gs |})).
Proof.
  intros declared. unfold parse_meta. split_and!.
  - intros Hsmall. by rewrite decide_True by done.
  - intros msg Hbig Hz. rewrite decide_False by done. by rewrite Hz.
  - intros meta Hbig Hz. rewrite decide_False by done. rewrite Hz.
    fold declared.
    set (fields := bind read_u32 _).
    assert (quiet_eof fields) as Hquiet.
    { unfold fields, repeat_n. quiet. }
    destruct (Hquiet (open_bytes meta)) as (r & s' & Hr & He).
    exists r. split_and!; [|done|].
    + unfold bind, on_stream. rewrite Hr.
      by repeat case_decide.
    + intros u0 u1 name es gs junk H0 H1 Hname Hes Hgs Hfes Hfgs Hmeta.
      unfold meta_layout in Hmeta. rewrite <- !app_assoc in Hmeta.
      subst meta. unfold fields in Hr.
      match type of Hr with
      | _ (open_bytes ?d) = _ => assert (remaining (open_bytes d) = d) as Hrem by done
      end.
      destruct (read_u32_layout _ _ _ H0 Hrem) as [Hs0 Hrem0].
      rewrite (bind_Ok _ _ _ _ _ Hs0) in Hr.
      destruct (read_u32_layout _ _ _ H1 Hrem0) as [Hs1 Hrem1].
      rewrite (bind_Ok _ _ _ _ _ Hs1) in Hr.
      destruct (read_len_str_layout _ _ _ Hname Hrem1) as [Hs2 Hrem2].
      rewrite (bind_Ok _ _ _ _ _ Hs2) in Hr.
      destruct (read_u32_layout _ _ _ Hes Hrem2) as [Hs3 Hrem3].
      rewrite (bind_Ok _ _ _ _ _ Hs3) in Hr.
      destruct (for_each_read_len_str_layout _ _ _ Hfes Hrem3) as (s4 & Hs4 & Hrem4).
      unfold repeat_n, len in Hr. rewrite !Nat2N.id in Hr.
      rewrite (bind_Ok _ _ _ _ _ Hs4) in Hr.
      destruct (read_u32_layout _ _ _ Hgs Hrem4) as [Hs5 Hrem5].
      rewrite (bind_Ok _ _ _ _ _ Hs5) in Hr.
      unfold len in Hr. rewrite !Nat2N.id in Hr.
      destruct (for_each_read_len_str_layout _ _ _ Hfgs Hrem5) as (s6 & Hs6 & Hrem6).
      rewrite (bind_Ok _ _ _ _ _ Hs6) in Hr.
      by injection Hr as <- _.
Qed.

(** ** The run as a whole *)

Lemma silent_ret {A} (a : A) : silent (ret a).
Proof. intros s. by exists (Ok a), s. Qed.

Lemma silent_lift {A} (r : res A) : silent (lift r).
Proof. intros s. by exists r, s. Qed.

Lemma silent_read n : silent (read n).
Proof. intros s. rewrite read_spec. by do 2 eexists. Qed.

Lemma silent_bind {A B} (m : M stream A) (k : A → M stream B) :
  silent m → (∀ a, silent (k a)) → silent (bind m k).
Proof.
  intros Hm Hk s. destruct (Hm s) as (r & s1 & Hr & Hc).
  destruct r as [a|e].
  - destruct (Hk a s1) as (r2 & s2 & Hr2 & Hc2).
    exists r2, s2. rewrite (bind_Ok _ _ _ _ _ Hr). split; [done|congruence].
  - exists (Raise e), s1. by rewrite (bind_Raise _ _ _ _ _ _ Hr).
Qed.

Lemma silent_read_u32 : silent read_u32.
Proof.
  apply silent_bind; [apply silent_read|]. intros d.
  case_decide; [|apply silent_ret]. intros s. by exists (Raise (EOFError "unexpected EOF")), s.
Qed.

Lemma silent_read_len_str : silent read_len_str.
Proof.
  apply silent_bind; [apply silent_read_u32|]. intros ln.
  case_decide; [apply silent_ret|].
  apply silent_bind; [apply silent_read|]. intros d.
  case_decide; [|apply silent_ret].
  intros s. by exists (Raise (EOFError "unexpected EOF in string")), s.
Qed.

Lemma silent_for_each {A B} (body : A → M stream B) (xs : list A) :
  (∀ x, silent (body x)) → silent (for_each body xs).
Proof.
  intros Hbody. induction xs as [|x xs IH]; [apply silent_ret|].
  simpl. apply silent_bind; [done|]. intros y.
  apply silent_bind; [done|]. intros ys. apply silent_ret.
Qed.

(** [parse_meta] leaves its caller's state alone and at most prints. *)
Lemma parse_meta_events {S} (meta_comp : bytes) (s : S) :
  ∃ r o, parse_meta meta_comp s = (r, s, o) ∧ only_prints o.
Proof.
  assert (only_prints []) as Hnil by (by intros ev ?%elem_of_nil).
  unfold parse_meta. case_decide; [by do 2 eexists|].
  destruct (zlib_decompress (drop 4 meta_comp)) as [msg|meta]; [by do 2 eexists|].
  match goal with
  | |- context [on_stream (open_bytes meta) ?m] =>
      destruct (on_stream_quiet m meta s) as (r & Hr & _);
        [unfold repeat_n; quiet|]
  end.
  unfold bind at 1. case_decide.
  - unfold emit. cbv beta iota. rewrite Hr. do 2 eexists. split; [done|].
    intros ev Hev. apply list_elem_of_singleton in Hev. by eexists.
  - unfold ret at 1. cbv beta iota. rewrite Hr. by do 2 eexists.
Qed.

(** A run either fails in the header, the metadata or the entry table,
    having at most printed, or reaches the entry loop, runs it to its end
    over the archive and reports success. *)
Lemma unpack_outcomes (archive : bytes) (out_dir : string) (do_convert : bool) :
  (∃ e warn,
     unpack archive out_dir do_convert = (Raise e, warn) ∧ only_prints warn)
  ∨ (∃ m entries s1 warn nc s2 o,
       content s1 = archive ∧ only_prints warn
       ∧ unpack_entries out_dir do_convert (exts m) (groups m) ∅ 0%N entries s1
         = (Ok nc, s2, o)
       ∧ unpack archive out_dir do_convert
         = (Ok tt, warn ++ o ++ [Print ("Done. Wrote files to: " +:+ out_dir)])).
Proof.
  assert (only_prints []) as Hnil by (by intros ev ?%elem_of_nil).
  destruct (unpack archive out_dir do_convert) as [r evs] eqn:E.
  unfold unpack, unpack_stream in E.
  rewrite (bind_Ok _ _ _ _ _ (read_spec 4 _)) in E.
  case_decide; [injection E as <- <-; left; by do 2 eexists|].
  set (s0 := advance _ _) in E. assert (content s0 = archive) as Hc0 by done.
  clearbody s0.
  destruct (silent_read_len_str s0) as (r1 & s1 & H1 & Hc1).
  destruct r1 as [?|e];
    [rewrite (bind_Ok _ _ _ _ _ H1) in E
    |rewrite (bind_Raise _ _ _ _ _ _ H1) in E; injection E as <- <-;
     left; by do 2 eexists].
  destruct (silent_read_u32 s1) as (r2 & s2 & H2 & Hc2).
  destruct r2 as [size|e];
    [rewrite (bind_Ok _ _ _ _ _ H2) in E
    |rewrite (bind_Raise _ _ _ _ _ _ H2) in E; injection E as <- <-;
     left; by do 2 eexists].
  rewrite (bind_Ok _ _ _ _ _ (read_spec size _)) in E.
  case_decide; [injection E as <- <-; left; by do 2 eexists|].
  set (s3 := advance s2 _) in E. assert (content s3 = archive) as Hc3
    by (unfold s3; rewrite content_advance; congruence).
  clearbody s3.
  destruct (parse_meta_events (take (N.to_nat size) (remaining s2)) s3)
    as (rm & warn & Hm & Hwarn).
  unfold bind at 1 in E. rewrite Hm in E.
  destruct rm as [m|e]; [|injection E as <- <-; left; by do 2 eexists].
  cbv zeta in E.
  destruct (silent_read_u32 s3) as (r4 & s4 & H4 & Hc4).
  destruct r4 as [entry_count|e];
    [rewrite (bind_Ok _ _ _ _ _ H4) in E
    |rewrite (bind_Raise _ _ _ _ _ _ H4), app_nil_r in E; injection E as <- <-;
     left; by do 2 eexists].
  assert (silent (repeat_n entry_count (let* d := read 20 in lift (unpack_5I d))))
    as Hentries.
  { apply silent_for_each. intros _. apply silent_bind; [apply silent_read|].
    intros d. apply silent_lift. }
  destruct (Hentries s4) as (r5 & s5 & H5 & Hc5).
  destruct r5 as [entries|e];
    [rewrite (bind_Ok _ _ _ _ _ H5) in E
    |rewrite (bind_Raise _ _ _ _ _ _ H5), app_nil_r in E; injection E as <- <-;
     left; by do 2 eexists].
  destruct (unpack_entries_ok out_dir do_convert (exts m) (groups m) entries ∅ 0%N s5)
    as (nc & s6 & o & Hloop & _).
  unfold bind, emit in E. rewrite Hloop in E. injection E as <- <-.
  right. exists m, entries, s5, warn, nc, s6, o.
  split_and!; [congruence|done|done|done].
Qed.

(** What is at a path after an event depends on what was at that path
    before, and on nothing else of the file system. *)
Lemma apply_event_agree (P : string → Prop) (fs1 fs2 : gmap string node) ev :
  (∀ p, P p → fs1 !! p = fs2 !! p) →
  ∀ p, P p → apply_event fs1 ev !! p = apply_event fs2 ev !! p.
Proof.
  intros Hagree p Hp. destruct ev as [line|q|q d]; simpl.
  - by apply Hagree.
  - destruct (decide (q = p)) as [->|Hne].
    + rewrite (Hagree p Hp). destruct (fs2 !! p) eqn:E; [by rewrite Hagree|].
      by rewrite !lookup_insert_eq.
    + destruct (fs1 !! q), (fs2 !! q); rewrite ?lookup_insert_ne by done;
        by apply Hagree.
  - rewrite !lookup_insert. case_decide; [done|by apply Hagree].
Qed.

Lemma apply_events_agree (P : string → Prop) evs (fs1 fs2 : gmap string node) :
  (∀ p, P p → fs1 !! p = fs2 !! p) →
  ∀ p, P p → apply_events fs1 evs !! p = apply_events fs2 evs !! p.
Proof.
  revert fs1 fs2. induction evs as [|ev evs IH]; intros fs1 fs2 Hagree; [done|].
  simpl. apply IH. by apply apply_event_agree.
Qed.


(** * Further properties

    ** The primitive decoder *)

Lemma le_value_bound (d : bytes) : (le_value d < 256 ^ N.of_nat (length d))%N.
Proof.
  induction d as [|b d IH]; [done|].
  cbn [le_value foldr length]. fold (le_value d).
  pose proof (Byte.to_N_bounded b).
  rewrite Nat2N.inj_succ, N.pow_succ_r'. lia.
Qed.

Lemma split_low_byte (a b : N) :
  (a < 256)%N → ((a + 256 * b) mod 256 = a ∧ (a + 256 * b) / 256 = b)%N.
Proof.
  intros Ha. rewrite (N.mul_comm 256 b). split.
  - rewrite N.Div0.mod_add. by apply N.mod_small.
  - rewrite N.div_add by done. rewrite N.div_small by done. lia.
Qed.

(** The layout of the value of four bytes is these four bytes. *)
Lemma u32le_le_value (d : bytes) : length d = 4 → u32le (le_value d) = d.
Proof.
  intros Hd. destruct d as [|b0 [|b1 [|b2 [|b3 [|]]]]]; try done.
  unfold le_value, u32le. cbn [foldr].
  pose proof (Byte.to_N_bounded b0). pose proof (Byte.to_N_bounded b1).
  pose proof (Byte.to_N_bounded b2). pose proof (Byte.to_N_bounded b3).
  set (n3 := (Byte.to_N b3 + 256 * 0)%N).
  set (n2 := (Byte.to_N b2 + 256 * n3)%N).
  set (n1 := (Byte.to_N b1 + 256 * n2)%N).
  change 65536%N with (256 * 256)%N. change 16777216%N with (256 * 256 * 256)%N.
  rewrite <- !N.Div0.div_div.
  destruct (split_low_byte (Byte.to_N b0) n1) as [-> ->]; [lia|]. unfold n1.
  destruct (split_low_byte (Byte.to_N b1) n2) as [-> ->]; [lia|]. unfold n2.
  destruct (split_low_byte (Byte.to_N b2) n3) as [-> ->]; [lia|]. unfold n3.
  destruct (split_low_byte (Byte.to_N b3) 0) as [-> _]; [lia|].
  by rewrite !Byte.of_to_N.
Qed.

Lemma read_u32_inv (s : stream) (n : N) (s' : stream) (o : list event) :
  read_u32 s = (Ok n, s', o) →
  (n < 2 ^ 32)%N ∧ (∃ rest, remaining s = u32le n ++ rest)
  ∧ s' = advance s 4 ∧ o = [].
Proof.
  rewrite read_u32_spec. case_decide as Hlen; [done|]. intros [= <- <- <-].
  pose proof (length_take (remaining s) 4) as Htake.
  split_and!; [|exists (drop 4 (remaining s))|done|done].
  - pose proof (le_value_bound (take 4 (remaining s))) as Hb.
    replace (length (take 4 (remaining s))) with 4%nat in Hb by lia. exact Hb.
  - rewrite u32le_le_value by lia. by rewrite take_drop.
Qed.

(** X1. [read_u32] returns [n] exactly when the next four bytes of the
    file are the little-endian layout of [n], a value below 2^32; the
    cursor then stands right after them and nothing was printed. *)
Theorem read_u32_iff (s : stream) (n : N) (s' : stream) (o : list event) :
  read_u32 s = (Ok n, s', o)
  ↔ (n < 2 ^ 32)%N
    ∧ (∃ rest, remaining s = u32le n ++ rest)
    ∧ s' = advance s 4 ∧ o = [].
Proof.
  split; [apply read_u32_inv|].
  intros (Hn & [rest Hrest] & -> & ->).
  by destruct (read_u32_layout s n rest Hn Hrest) as [-> _].
Qed.

Lemma read_len_str_inv (s : stream) (t : string) (s' : stream) (o : list event) :
  read_len_str s = (Ok t, s', o) →
  ∃ b rest,
    (len b < 2 ^ 32)%N ∧ remaining s = len_str b ++ rest
    ∧ t = text_of b ∧ s' = advance s (4 + length b) ∧ o = [].
Proof.
  unfold read_len_str, bind at 1.
  destruct (read_u32 s) as [[[ln|e] s1] o1] eqn:Hu; [|done].
  apply read_u32_inv in Hu as (Hln & [rest Hrest] & -> & ->).
  case_decide as H0.
  - intros [= <- <- <-]. exists [], rest. subst ln.
    split_and!; [done|done|done|done|done].
  - unfold bind. rewrite read_spec, remaining_advance, Hrest.
    change (drop 4 (u32le ln ++ rest)) with rest.
    case_decide as Hshort; [done|]. intros [= <- <- <-].
    exists (take (N.to_nat ln) rest), (drop (N.to_nat ln) rest).
    unfold len_str, text_of. rewrite Hshort, <- app_assoc, take_drop.
    rewrite decide_False.
    2:{ intros Hnil. rewrite Hnil in Hshort. apply H0. by rewrite <- Hshort. }
    split_and!; [lia|done|done| |done].
    by rewrite advance_advance.
Qed.

(** X2. [read_len_str] returns a string exactly when the file goes on
    with a length-prefixed string: the layout of a length below 2^32, then
    that many bytes. It returns their text ([""] for no byte), with the
    cursor right after them. *)
Theorem read_len_str_iff (s : stream) (t : string) (s' : stream) (o : list event) :
  read_len_str s = (Ok t, s', o)
  ↔ ∃ b rest,
      (len b < 2 ^ 32)%N ∧ remaining s = len_str b ++ rest
      ∧ t = text_of b ∧ s' = advance s (4 + length b) ∧ o = [].
Proof.
  split; [apply read_len_str_inv|].
  intros (b & rest & Hb & Hrest & -> & -> & ->).
  by destruct (read_len_str_layout s b rest Hb Hrest) as [-> _].
Qed.

(** X3. A table of strings is read back in order: after the layouts of
    the strings of [l], one after the other, reading [len l] strings
    returns their texts and leaves the cursor on what follows. *)
Theorem string_table_round_trip (l : list bytes) (s : stream) (rest : bytes) :
  Forall (λ b, len b < 2 ^ 32)%N l →
  remaining s = concat (len_str <$> l) ++ rest →
  ∃ s', repeat_n (len l) read_len_str s = (Ok (text_of <$> l), s', [])
        ∧ remaining s' = rest ∧ content s' = content s.
Proof.
  intros Hl Hrem. unfold repeat_n, len. rewrite Nat2N.id.
  destruct (for_each_read_len_str_layout l s rest Hl Hrem) as (s' & Hs' & Hrest).
  exists s'. split_and!; [done|done|].
  destruct (silent_for_each (λ _ : unit, read_len_str) (replicate (length l) tt)
              (λ _, silent_read_len_str) s) as (r & s2 & Hr & Hc).
  rewrite Hs' in Hr. by injection Hr as <- <-.
Qed.

(** ** The metadata block, further *)

Lemma bind_Ok_inv {S A B} (m : M S A) (k : A → M S B) s b s' o :
  bind m k s = (Ok b, s', o) →
  ∃ a s1 o1 o2, m s = (Ok a, s1, o1) ∧ k a s1 = (Ok b, s', o2) ∧ o = o1 ++ o2.
Proof.
  unfold bind. destruct (m s) as [[[a|e] s1] o1]; [|done].
  destruct (k a s1) as [[r s2] o2] eqn:E. intros [= -> <- <-].
  by eexists _, _, _, _.
Qed.

Lemma read_u32_left s n s' o :
  read_u32 s = (Ok n, s', o) →
  length (remaining s) = (4 + length (remaining s'))%nat.
Proof.
  intros (_ & [rest Hrest] & -> & _)%read_u32_inv.
  rewrite remaining_advance, Hrest. done.
Qed.

Lemma read_len_str_left s t s' o :
  read_len_str s = (Ok t, s', o) →
  (4 + length (remaining s') ≤ length (remaining s))%nat.
Proof.
  intros (b & rest & _ & Hrest & _ & -> & _)%read_len_str_inv.
  rewrite remaining_advance, Hrest. unfold len_str.
  rewrite length_drop, !length_app. simpl. lia.
Qed.

Lemma for_each_read_len_str_left k s l s' o :
  for_each (λ _ : unit, read_len_str) (replicate k tt) s = (Ok l, s', o) →
  length l = k ∧ (4 * k + length (remaining s') ≤ length (remaining s))%nat.
Proof.
  revert s l o. induction k as [|k IH]; intros s l o; simpl.
  - intros [= <- <- <-]. split; [done|lia].
  - intros (t & s1 & o1 & o2 & Ht & Hk & _)%bind_Ok_inv.
    apply bind_Ok_inv in Hk as (ts & s2 & o3 & o4 & Hts & Hret & _).
    injection Hret as <- <- _.
    apply read_len_str_left in Ht. apply IH in Hts as [<- Hts].
    split; [done|lia].
Qed.

Lemma quiet_eof_meta_fields : quiet_eof meta_fields.
Proof. unfold meta_fields, repeat_n. quiet. Qed.

(** The fixed fields take 20 bytes and every name at least 4. *)
Lemma meta_fields_left d m s' o :
  meta_fields (open_bytes d) = (Ok m, s', o) →
  (20 + 4 * (length (exts m) + length (groups m)) ≤ length d)%nat.
Proof.
  unfold meta_fields, repeat_n.
  intros (u0 & s1 & ? & ? & H0 & H & _)%bind_Ok_inv.
  apply bind_Ok_inv in H as (u1 & s2 & ? & ? & H1 & H & _).
  apply bind_Ok_inv in H as (name & s3 & ? & ? & H2 & H & _).
  apply bind_Ok_inv in H as (ec & s4 & ? & ? & H3 & H & _).
  apply bind_Ok_inv in H as (es & s5 & ? & ? & H4 & H & _).
  apply bind_Ok_inv in H as (gc & s6 & ? & ? & H5 & H & _).
  apply bind_Ok_inv in H as (gs & s7 & ? & ? & H6 & H & _).
  injection H as <- _ _. simpl.
  apply read_u32_left in H0, H1, H3, H5. apply read_len_str_left in H2.
  apply for_each_read_len_str_left in H4 as [Hes H4], H6 as [Hgs H6].
  change (remaining (open_bytes d)) with d in H0. lia.
Qed.

(** [parse_meta] on a slice of at least 4 bytes whose stream decompresses
    to [meta]: the size warning, then the positional reads on [meta]. *)
Lemma parse_meta_inr {S} (meta_comp meta : bytes) (s : S) :
  ¬ (len meta_comp < 4)%N →
  zlib_decompress (drop 4 meta_comp) = inr meta →
  ∃ r st',
    meta_fields (open_bytes meta) = (r, st', [])
    ∧ (∀ e, r = Raise e → is_eof e)
    ∧ parse_meta meta_comp s
      = (r, s, meta_size_warning (len meta) (le_value (take 4 meta_comp))).
Proof.
  intros Hbig Hz.
  destruct (quiet_eof_meta_fields (open_bytes meta)) as (r & st' & Hr & He).
  exists r, st'. split_and!; [done|done|].
  unfold parse_meta. rewrite decide_False by done. rewrite Hz.
  change (on_stream (open_bytes meta) _)
    with (on_stream (S := S) (open_bytes meta) meta_fields).
  unfold bind at 1, on_stream, meta_size_warning.
  repeat case_decide; try done; unfold emit, ret; by rewrite Hr.
Qed.

Lemma parse_meta_Ok_inv {S} (meta_comp : bytes) (s s' : S) m o :
  parse_meta meta_comp s = (Ok m, s', o) →
  ∃ meta st',
    ¬ (len meta_comp < 4)%N
    ∧ zlib_decompress (drop 4 meta_comp) = inr meta
    ∧ meta_fields (open_bytes meta) = (Ok m, st', [])
    ∧ s' = s
    ∧ o = meta_size_warning (len meta) (le_value (take 4 meta_comp)).
Proof.
  intros Hp. destruct (decide (len meta_comp < 4)%N) as [Hsmall|Hbig].
  { unfold parse_meta in Hp. by rewrite decide_True in Hp by done. }
  destruct (zlib_decompress (drop 4 meta_comp)) as [msg|meta] eqn:Hz.
  { unfold parse_meta in Hp. rewrite decide_False, Hz in Hp by done. done. }
  destruct (parse_meta_inr meta_comp meta s Hbig Hz) as (r & st' & Hr & _ & Hpm).
  rewrite Hpm in Hp. injection Hp as -> <- <-.
  by exists meta, st'.
Qed.

(** X4. The tables [parse_meta] returns fit in the decompressed block: 20
    bytes for the fixed fields and at least 4 for every name. An archive
    cannot make it return more names than a quarter of the bytes it
    decompressed. *)
Theorem parse_meta_tables_fit {S : Type} (meta_comp : bytes) (s s' : S)
    (m : meta) (o : list event) :
  parse_meta meta_comp s = (Ok m, s', o) →
  ∃ meta_bytes,
    zlib_decompress (drop 4 meta_comp) = inr meta_bytes
    ∧ (20 + 4 * (length (exts m) + length (groups m)) ≤ length meta_bytes)%nat
    ∧ s' = s.
Proof.
  intros (meta_bytes & st' & _ & Hz & Hf & -> & _)%parse_meta_Ok_inv.
  exists meta_bytes. split_and!; [done| |done]. by eapply meta_fields_left.
Qed.

(** X5. A block that decompresses to fewer than 20 bytes cannot hold the
    fixed fields: [parse_meta] raises [EOFError], after the size warning
    if the declared size differs. *)
Theorem parse_meta_short_block {S : Type} (meta_comp meta_bytes : bytes) (s : S) :
  ¬ (len meta_comp < 4)%N →
  zlib_decompress (drop 4 meta_comp) = inr meta_bytes →
  (length meta_bytes < 20)%nat →
  ∃ e, is_eof e
       ∧ parse_meta meta_comp s
         = (Raise e, s,
            meta_size_warning (len meta_bytes) (le_value (take 4 meta_comp))).
Proof.
  intros Hbig Hz Hshort.
  destruct (parse_meta_inr meta_comp meta_bytes s Hbig Hz) as (r & st' & Hr & He & ->).
  destruct r as [m|e].
  - apply meta_fields_left in Hr. lia.
  - exists e. split; [by apply He|done].
Qed.

(** The positional reads undo the layout of the fields. *)
Lemma meta_fields_layout u0 u1 name es gs junk :
  (u0 < 2 ^ 32)%N → (u1 < 2 ^ 32)%N → (len name < 2 ^ 32)%N →
  (len es < 2 ^ 32)%N → (len gs < 2 ^ 32)%N →
  Forall (λ b, len b < 2 ^ 32)%N es → Forall (λ b, len b < 2 ^ 32)%N gs →
  ∃ st', meta_fields (open_bytes (meta_layout u0 u1 name es gs ++ junk))
         = (Ok {| unk0 := u0; unk1 := u1; method_name := text_of name;
                  exts := text_of <$> es; groups := text_of <$> gs |}, st', []).
Proof.
  intros H0 H1 Hname Hes Hgs Hfes Hfgs.
  unfold meta_layout. rewrite <- !app_assoc.
  match goal with
  | |- context [open_bytes ?d] =>
      assert (remaining (open_bytes d) = d) as Hrem by done
  end.
  unfold meta_fields.
  destruct (read_u32_layout _ _ _ H0 Hrem) as [Hs0 Hrem0].
  rewrite (bind_Ok _ _ _ _ _ Hs0).
  destruct (read_u32_layout _ _ _ H1 Hrem0) as [Hs1 Hrem1].
  rewrite (bind_Ok _ _ _ _ _ Hs1).
  destruct (read_len_str_layout _ _ _ Hname Hrem1) as [Hs2 Hrem2].
  rewrite (bind_Ok _ _ _ _ _ Hs2).
  destruct (read_u32_layout _ _ _ Hes Hrem2) as [Hs3 Hrem3].
  rewrite (bind_Ok _ _ _ _ _ Hs3).
  destruct (for_each_read_len_str_layout _ _ _ Hfes Hrem3) as (s4 & Hs4 & Hrem4).
  unfold repeat_n, len. rewrite !Nat2N.id.
  rewrite (bind_Ok _ _ _ _ _ Hs4).
  destruct (read_u32_layout _ _ _ Hgs Hrem4) as [Hs5 Hrem5].
  rewrite (bind_Ok _ _ _ _ _ Hs5).
  unfold len. rewrite !Nat2N.id.
  destruct (for_each_read_len_str_layout _ _ _ Hfgs Hrem5) as (s6 & Hs6 & Hrem6).
  rewrite (bind_Ok _ _ _ _ _ Hs6).
  by eexists.
Qed.

(** ** The entry table *)

(** [struct.unpack("<5I", ...)] undoes the layout of a record. *)
Lemma unpack_5I_layout (e : entry) :
  entry_bounded e → unpack_5I (entry_layout e) = Ok e.
Proof.
  destruct e as [[[[o z] x] g] m]. unfold entry_bounded. simpl.
  intros (Ho & Hz & Hx & Hg & Hm).
  unfold unpack_5I. rewrite decide_True by reflexivity.
  change (Ok (le_value (u32le o), le_value (u32le z), le_value (u32le x),
              le_value (u32le g), le_value (u32le m)) = Ok (o, z, x, g, m)).
  by rewrite !le_value_u32le.
Qed.

(** A buffer [struct.unpack("<5I", ...)] accepts is the layout of the
    record it returns. *)
Lemma unpack_5I_inv (d : bytes) (e : entry) :
  unpack_5I d = Ok e → entry_layout e = d ∧ entry_bounded e ∧ length d = 20.
Proof.
  unfold unpack_5I. case_decide as Hd; [|done]. intros [= <-].
  do 21 (destruct d as [|? d]; try done).
  split_and!; [|repeat split|done].
  - unfold entry_layout.
    cbn [offset_of size_of ext_id_of group_id_of method_id_of firstn skipn].
    by rewrite !u32le_le_value by done.
  - apply (le_value_bound [_; _; _; _]).
  - apply (le_value_bound [_; _; _; _]).
  - apply (le_value_bound [_; _; _; _]).
  - apply (le_value_bound [_; _; _; _]).
  - apply (le_value_bound [_; _; _; _]).
Qed.

Lemma read_entry_cases (s : stream) :
  read_entry s =
  if decide (length (remaining s) < 20) then
    (Raise struct_error, advance s (length (remaining s)), [])
  else (unpack_5I (take 20 (remaining s)), advance s 20, []).
Proof.
  unfold read_entry. rewrite (bind_Ok _ _ _ _ _ (read_spec 20 s)).
  change (N.to_nat 20) with 20%nat.
  pose proof (length_take (remaining s) 20) as Hlen. unfold lift.
  case_decide.
  - rewrite take_ge by lia. unfold unpack_5I. by rewrite decide_False by lia.
  - by replace (length (take 20 (remaining s))) with 20%nat by lia.
Qed.

Lemma for_each_read_entry_cases (k : nat) (s : stream) :
  if decide (20 * k ≤ length (remaining s)) then
    ∃ es, for_each (λ _ : unit, read_entry) (replicate k tt) s
          = (Ok es, advance s (20 * k), [])
          ∧ length es = k ∧ Forall entry_bounded es
          ∧ concat (entry_layout <$> es) = take (20 * k) (remaining s)
  else ∃ s', for_each (λ _ : unit, read_entry) (replicate k tt) s
             = (Raise struct_error, s', []).
Proof.
  revert s. induction k as [|k IH]; intros s.
  - rewrite decide_True by lia. exists []. simpl. unfold ret, advance.
    rewrite Nat.add_0_r. by destruct s.
  - cbn [replicate for_each]. pose proof (read_entry_cases s) as Hone.
    destruct (decide (length (remaining s) < 20)) as [Hshort|Hfull].
    + rewrite decide_False by lia. eexists.
      by rewrite (bind_Raise _ _ _ _ _ _ Hone).
    + destruct (unpack_5I (take 20 (remaining s))) as [e|err] eqn:Hu.
      2:{ unfold unpack_5I in Hu. rewrite decide_True in Hu; [done|].
          rewrite length_take. lia. }
      rewrite (bind_Ok _ _ _ _ _ Hone).
      apply unpack_5I_inv in Hu as (Hlay & Hb & _).
      specialize (IH (advance s 20)). rewrite remaining_advance, length_drop in IH.
      destruct (decide (20 * k ≤ length (remaining s) - 20)) as [Hk|Hk].
      * rewrite decide_True by lia.
        destruct IH as (es & Hes & Hlen & Hbs & Hcat).
        exists (e :: es). rewrite (bind_Ok _ _ _ _ _ Hes). unfold ret.
        rewrite advance_advance.
        replace (20 + 20 * k)%nat with (20 * S k)%nat by lia.
        split_and!; [done|simpl; lia|by constructor|].
        cbn [fmap list_fmap concat]. rewrite Hlay, Hcat.
        replace (20 * S k)%nat with (20 + 20 * k)%nat by lia.
        by rewrite take_take_drop.
      * rewrite decide_False by lia.
        destruct IH as (s' & Hes). exists s'.
        by rewrite (bind_Raise _ _ _ _ _ _ Hes).
Qed.

(** X6. Reading a table of [n] records succeeds exactly when 20 * n bytes
    are left. It then returns [n] records whose layout is the bytes read,
    each field below 2^32, with the cursor right after them. With fewer
    bytes it raises [struct.error] (not the [EOFError] of the other
    reads) and prints nothing. *)
Theorem entry_table_cases (n : N) (s : stream) :
  if decide (20 * N.to_nat n ≤ length (remaining s)) then
    ∃ es, read_entries n s = (Ok es, advance s (20 * N.to_nat n), [])
          ∧ len es = n ∧ Forall entry_bounded es
          ∧ concat (entry_layout <$> es) = take (20 * N.to_nat n) (remaining s)
  else ∃ s', read_entries n s = (Raise struct_error, s', []).
Proof.
  unfold read_entries, repeat_n.
  pose proof (for_each_read_entry_cases (N.to_nat n) s) as H.
  case_decide; [|done].
  destruct H as (es & Hes & Hlen & Hb & Hcat). exists es.
  split_and!; [done| |done|done]. unfold len. lia.
Qed.

Lemma advance_0 (s : stream) : advance s 0 = s.
Proof. destruct s. unfold advance. simpl. by rewrite Nat.add_0_r. Qed.

Lemma for_each_read_entry_layout (es : list entry) (s : stream) (rest : bytes) :
  Forall entry_bounded es →
  remaining s = concat (entry_layout <$> es) ++ rest →
  for_each (λ _ : unit, read_entry) (replicate (length es) tt) s
  = (Ok es, advance s (20 * length es), [])
  ∧ remaining (advance s (20 * length es)) = rest.
Proof.
  intros Hb. revert s. induction Hb as [|e es He Hes IH]; intros s Hrem.
  - change (20 * length (@nil entry))%nat with 0%nat. rewrite advance_0.
    split; [done|]. by rewrite Hrem.
  - cbn [fmap list_fmap concat] in Hrem. rewrite <- app_assoc in Hrem.
    assert (length (entry_layout e) = 20%nat) as Hlen by done.
    pose proof (read_entry_cases s) as Hone. rewrite Hrem in Hone.
    rewrite decide_False in Hone by (rewrite length_app; lia).
    rewrite <- Hlen, take_app_length, (unpack_5I_layout e He), Hlen in Hone.
    cbn [length replicate for_each]. rewrite (bind_Ok _ _ _ _ _ Hone).
    destruct (IH (advance s 20)) as [Hrest Hrem'].
    { rewrite remaining_advance, Hrem, <- Hlen. by rewrite drop_app_length. }
    rewrite (bind_Ok _ _ _ _ _ Hrest). unfold ret.
    rewrite advance_advance in *.
    by replace (20 * S (length es))%nat with (20 + 20 * length es)%nat by lia.
Qed.

Lemma read_entries_layout (es : list entry) (s : stream) (rest : bytes) :
  Forall entry_bounded es →
  remaining s = concat (entry_layout <$> es) ++ rest →
  read_entries (len es) s = (Ok es, advance s (20 * length es), [])
  ∧ remaining (advance s (20 * length es)) = rest.
Proof.
  intros Hb Hrem. unfold read_entries, repeat_n, len. rewrite Nat2N.id.
  by apply for_each_read_entry_layout.
Qed.

(** X7. A table of records is read back: after the layouts of the
    records of [es], each field below 2^32, reading [len es] records
    returns [es] and leaves the cursor on what follows. *)
Theorem entry_table_round_trip (es : list entry) (s : stream) (rest : bytes) :
  Forall entry_bounded es →
  remaining s = concat (entry_layout <$> es) ++ rest →
  read_entries (len es) s = (Ok es, advance s (20 * length es), [])
  ∧ remaining (advance s (20 * length es)) = rest.
Proof. apply read_entries_layout. Qed.


(** ** The run on a well-formed archive *)

(** The loop body sees the file only through its content: it seeks to the
    offset of the entry before it reads. *)
Lemma unpack_entry_content out_dir do_convert exts groups nc i e s1 s2 :
  content s1 = content s2 →
  ∃ nc' o s1' s2',
    unpack_entry out_dir do_convert exts groups nc i e s1 = (Ok nc', s1', o)
    ∧ unpack_entry out_dir do_convert exts groups nc i e s2 = (Ok nc', s2', o)
    ∧ content s1' = content s2'.
Proof.
  intros Hc. destruct (decide (in_range exts groups e)) as [Hr|Hr].
  - destruct (skipped_or_decoded i e (blob_at (content s1) e))
      as [[w Hs]|(ws & data & Hd)].
    + eexists _, _, _, _. split_and!.
      * by apply unpack_entry_skipped.
      * rewrite Hc in Hs. rewrite (unpack_entry_skipped _ _ _ _ _ _ _ _ _ Hr Hs).
        reflexivity.
      * done.
    + eexists _, _, _, _. split_and!.
      * by apply unpack_entry_decoded.
      * rewrite Hc in Hd. rewrite (unpack_entry_decoded _ _ _ _ _ _ _ _ _ _ Hr Hd).
        reflexivity.
      * done.
  - eexists _, _, _, _. split_and!; [by apply unpack_entry_bad_indices| |done].
    by rewrite (unpack_entry_bad_indices _ _ _ _ _ _ _ _ Hr).
Qed.

Lemma unpack_entries_content out_dir do_convert exts groups es nc i s1 s2 :
  content s1 = content s2 →
  ∃ nc' o s1' s2',
    unpack_entries out_dir do_convert exts groups nc i es s1 = (Ok nc', s1', o)
    ∧ unpack_entries out_dir do_convert exts groups nc i es s2 = (Ok nc', s2', o).
Proof.
  revert nc i s1 s2. induction es as [|e es IH]; intros nc i s1 s2 Hc.
  - by exists nc, [], s1, s2.
  - destruct (unpack_entry_content out_dir do_convert exts groups nc i e s1 s2 Hc)
      as (nc1 & o1 & s1' & s2' & H1 & H2 & Hc').
    destruct (IH nc1 (i + 1)%N s1' s2' Hc') as (nc' & o & t1 & t2 & Ht1 & Ht2).
    exists nc', (o1 ++ o), t1, t2.
    rewrite (unpack_entries_cons _ _ _ _ _ _ _ _ _ _ _ _ H1), Ht1.
    by rewrite (unpack_entries_cons _ _ _ _ _ _ _ _ _ _ _ _ H2), Ht2.
Qed.

(** X8. The entry loop locates every block by its absolute offset: run on
    two file objects over the same content, wherever their cursors stand,
    it emits the same events and leaves the same counters. *)
Theorem entry_loop_ignores_cursor (out_dir : string) (do_convert : bool)
    (exts groups : list string) (es : list entry) (nc : gmap string N) (i : N)
    (s1 s2 : stream) :
  content s1 = content s2 →
  (unpack_entries out_dir do_convert exts groups nc i es s1).2
  = (unpack_entries out_dir do_convert exts groups nc i es s2).2
  ∧ (unpack_entries out_dir do_convert exts groups nc i es s1).1.1
    = (unpack_entries out_dir do_convert exts groups nc i es s2).1.1.
Proof.
  intros Hc.
  destruct (unpack_entries_content out_dir do_convert exts groups es nc i s1 s2 Hc)
    as (nc' & o & t1 & t2 & -> & ->). done.
Qed.

Lemma take_len_app {A} (l k : list A) : take (N.to_nat (len l)) (l ++ k) = l.
Proof. unfold len. by rewrite Nat2N.id, take_app_length. Qed.



(** ** The converter, further *)

Lemma startswith_length (p d : bytes) :
  startswith p d = true → length p ≤ length d.
Proof.
  revert d. induction p as [|a p IH]; intros [|b d]; simpl; try done; [lia|].
  case_decide; [|done]. intros Hsw%IH. lia.
Qed.

(** X11. Every artifact the converter writes starts with a signature the
    code tests, and its file name ends with the extension the code gives
    that signature; in particular no artifact is empty. *)
Theorem converted_artifact_has_signature (out_dir ext : string) (data : bytes)
    (name_tag p : string) (d : bytes) :
  WriteFile p d ∈ convert_events out_dir ext data name_tag →
  ∃ magic r,
    (magic, r) ∈ signatures ∧ startswith magic d = true
    ∧ p = os_path_join out_dir ["_converted"; ext; name_tag +:+ "." +:+ r]
    ∧ d ≠ [].
Proof.
  assert (∀ magic r (q : string) (x : bytes),
            (magic, r) ∈ signatures → startswith magic x = true →
            q = os_path_join out_dir ["_converted"; ext; name_tag +:+ "." +:+ r] →
            ∃ magic r, (magic, r) ∈ signatures ∧ startswith magic x = true
              ∧ q = os_path_join out_dir ["_converted"; ext; name_tag +:+ "." +:+ r]
              ∧ x ≠ []) as Hfound.
  { intros magic r q x Hin Hsw Hq. exists magic, r. split_and!; try done.
    intros ->. apply startswith_length in Hsw.
    unfold signatures, magics in Hin.
    repeat (apply elem_of_cons in Hin as [[= -> _]|Hin]; [simpl in Hsw; lia|]).
    by apply elem_of_nil in Hin. }
  unfold convert_events, maybe_convert.
  repeat case_decide; subst.
  - destruct (startswith (list_byte_of_string "OggS") data) eqn:Hogg;
      [|destruct (startswith (list_byte_of_string "RIFF") data) eqn:Hriff];
      rewrite ?write_converted_spec; cbn [snd ret];
      rewrite ?elem_of_cons, ?elem_of_nil; intros Hin;
      repeat destruct Hin as [Hin|Hin]; try done; injection Hin as -> ->.
    + eapply Hfound; [|exact Hogg|done]. unfold signatures. in_list.
    + eapply Hfound; [|exact Hriff|done]. unfold signatures, magics. in_list.
  - destruct (startswith (list_byte_of_string "DDS ") data) eqn:Hdds;
      rewrite ?write_converted_spec; cbn [snd ret];
      rewrite ?elem_of_cons, ?elem_of_nil; intros Hin;
      repeat destruct Hin as [Hin|Hin]; try done; injection Hin as -> ->.
    eapply Hfound; [|exact Hdds|done]. unfold signatures, magics. in_list.
  - destruct (startswith JPEG_MAGIC (drop 4 data)) eqn:Hjpg;
      rewrite ?write_converted_spec; cbn [snd ret];
      rewrite ?elem_of_cons, ?elem_of_nil; intros Hin;
      repeat destruct Hin as [Hin|Hin]; try done; injection Hin as -> ->.
    eapply Hfound; [|exact Hjpg|done]. unfold signatures, magics. in_list.
  - cbn [snd ret]. by intros ?%elem_of_nil.
  - pose proof (detect_in_spec magics data) as Hspec. unfold detect_embedded.
    destruct (detect_in magics data) as [[r off]|].
    + destruct Hspec as (pre & magic & post & k & Htab & -> & _ & Hk & _).
      rewrite write_converted_spec, Nat2Z.id. cbn [snd].
      rewrite ?elem_of_cons, ?elem_of_nil; intros Hin;
        repeat destruct Hin as [Hin|Hin]; try done; injection Hin as -> ->.
      eapply Hfound; [|exact Hk|done].
      unfold signatures. rewrite Htab. apply elem_of_cons. right.
      apply elem_of_app. right. apply list_elem_of_here.
    + cbn [snd ret]. by intros ?%elem_of_nil.
  - cbn [snd ret]. by intros ?%elem_of_nil.
Qed.

(** X12. A scene is left alone exactly when none of the signatures of the
    table stands anywhere in it: then, and only then, the converter does
    nothing at all. *)
Theorem gscene_silent_iff (out_dir : string) (data : bytes) (name_tag : string) :
  convert_events out_dir "gscene" data name_tag = []
  ↔ ∀ magic ext k, (magic, ext) ∈ magics → ¬ occurs_at magic data k.
Proof.
  unfold convert_events, maybe_convert.
  repeat (case_decide; [done|]). case_decide; [|done].
  pose proof (detect_in_spec magics data) as Hspec. unfold detect_embedded.
  destruct (detect_in magics data) as [[r off]|].
  - destruct Hspec as (pre & magic & post & k & Htab & -> & _ & Hk & _).
    rewrite write_converted_spec. split; [done|]. intros Hnone.
    destruct (Hnone magic r k); [|done].
    rewrite Htab. apply elem_of_app. right. apply list_elem_of_here.
  - done.
Qed.



(** ** Output names, further *)

Lemma str_length_app (a b : string) :
  String.length (a +:+ b) = (String.length a + String.length b)%nat.
Proof.
  induction a as [|c a IH]; [done|].
  change (S (String.length (a +:+ b)) = S (String.length a + String.length b)).
  by rewrite IH.
Qed.

Lemma str_app_inv_tail (a b s : string) : a +:+ s = b +:+ s → a = b.
Proof.
  revert b. induction a as [|c a IH]; intros [|c' b] H; [done| | |].
  - apply (f_equal String.length) in H. rewrite !str_length_app in H.
    simpl in H. lia.
  - apply (f_equal String.length) in H. rewrite !str_length_app in H.
    simpl in H. lia.
  - change (String c (a +:+ s) = String c' (b +:+ s)) in H.
    injection H as -> H. f_equal. by apply IH.
Qed.

(** The digits of [f"{n:02d}"] read back as [n]. *)
Lemma format_02d_value (n : N) :
  ∃ d, NilZero.uint_of_string (format_02d n) = Some d ∧ N.of_uint d = n.
Proof.
  assert (N.to_uint n ≠ Decimal.Nil) as Hnil.
  { destruct n; [done|apply Stdlib.Numbers.DecimalPos.Unsigned.to_uint_nonnil]. }
  pose proof (NilZero.usu _ Hnil) as Hu.
  unfold format_02d, str_of_int. case_decide.
  - exists (Decimal.D0 (N.to_uint n)). split; [|apply Stdlib.Numbers.DecimalN.Unsigned.of_to].
    assert (NilZero.string_of_uint (N.to_uint n)
            = NilEmpty.string_of_uint (N.to_uint n)) as ->.
    { unfold NilZero.string_of_uint. by destruct (N.to_uint n). }
    change (NilZero.uint_of_string ("0" +:+ ?s))
      with (uint_of_char "0" (NilEmpty.uint_of_string s)).
    by rewrite NilEmpty.usu.
  - exists (N.to_uint n). split; [done|apply Stdlib.Numbers.DecimalN.Unsigned.of_to].
Qed.

Lemma format_02d_inj (n m : N) : format_02d n = format_02d m → n = m.
Proof.
  intros H.
  destruct (format_02d_value n) as (d & Hd & <-).
  destruct (format_02d_value m) as (d' & Hd' & <-).
  rewrite H in Hd. congruence.
Qed.

Lemma file_name_of_inj (group ext : string) (n m : N) :
  file_name_of group ext n = file_name_of group ext m → n = m.
Proof.
  unfold file_name_of.
  destruct (decide (n = 1%N)) as [->|Hn], (decide (m = 1%N)) as [->|Hm]; [done| | |].
  - intros Heq%(inj (String.app group)). discriminate Heq.
  - intros Heq%(inj (String.app group)). discriminate Heq.
  - intros Heq%(inj (String.app group)).
    change (String "_" (format_02d n +:+ "." +:+ ext)
            = String "_" (format_02d m +:+ "." +:+ ext)) in Heq.
    injection Heq as Heq. by apply str_app_inv_tail, format_02d_inj in Heq.
Qed.

Lemma file_name_of_head (group ext : string) (n m : N) :
  str_startswith_sep (file_name_of group ext n)
  = str_startswith_sep (file_name_of group ext m).
Proof.
  unfold file_name_of. destruct group as [|c group]; [by repeat case_decide|].
  by repeat case_decide.
Qed.

Lemma join2_inj (path b1 b2 : string) :
  str_startswith_sep b1 = str_startswith_sep b2 →
  join2 path b1 = join2 path b2 → b1 = b2.
Proof.
  unfold join2. intros ->. destruct (str_startswith_sep b2); [done|].
  destruct (decide _); [by intros ?%(inj (String.app path))|].
  destruct (str_endswith_sep path); [by intros ?%(inj (String.app path))|].
  intros Heq%(inj (String.app path)). by apply (inj (String.app "/")) in Heq.
Qed.

Lemma out_path_of_file_name out_dir ext group n :
  out_path_of out_dir ext group n
  = os_path_join out_dir [ext; file_name_of group ext n].
Proof.
  unfold file_name_of. case_decide as Hn; [by rewrite Hn|].
  by apply out_path_of_later.
Qed.

Lemma occurrences_app exts groups base (l1 l2 : list entry) :
  occurrences exts groups base (l1 ++ l2)
  = (occurrences exts groups base l1 + occurrences exts groups base l2)%N.
Proof. induction l1 as [|e l1 IH]; simpl; [done|]. rewrite IH. lia. Qed.

(** The write of a decoded entry in the events of the loop. *)
Lemma primary_write_in_trace out_dir do_convert exts groups pre e post s ws data :
  in_range exts groups e →
  decoded (len pre) e (blob_at (content s) e) ws data →
  WriteFile
    (os_path_join out_dir
       [ext_name exts e;
        file_name_of (group_name groups e) (ext_name exts e)
          (occurrences exts groups (base_name_of exts groups e) pre + 1)])
    data
  ∈ (unpack_entries out_dir do_convert exts groups ∅ 0%N (pre ++ e :: post) s).2.
Proof.
  intros Hr Hd.
  destruct (unpack_entries_app out_dir do_convert exts groups pre (e :: post) ∅ 0%N s)
    as (nc1 & s1 & o1 & _ & Hcont & Hcount & ->).
  rewrite N.add_0_l. rewrite <- Hcont in Hd.
  pose proof (unpack_entry_decoded out_dir do_convert _ _ nc1 _ e _ ws data Hr Hd) as He.
  assert (next_count exts groups nc1 e
          = (occurrences exts groups (base_name_of exts groups e) pre + 1)%N) as Hn.
  { unfold next_count. rewrite Hcount, lookup_empty. done. }
  rewrite Hn, out_path_of_file_name in He.
  rewrite (unpack_entries_cons _ _ _ _ _ _ _ _ _ _ _ _ He).
  destruct (unpack_entries _ _ _ _ _ _ post _) as [[r s2] o2].
  cbn [snd]. apply elem_of_app. right. apply elem_of_app. left.
  apply elem_of_app. right. apply elem_of_app. right.
  apply elem_of_app. left. apply list_elem_of_here.
Qed.

(** X15. Two decoded entries with the same group and extension names are
    never written to the same path: their file names carry different
    counts, and the count can be read back from the name. *)
Theorem same_name_entries_get_distinct_paths (out_dir : string) (do_convert : bool)
    (exts groups : list string) (pre : list entry) (e1 : entry) (mid : list entry)
    (e2 : entry) (post : list entry) (s : stream)
    (ws1 : list event) (d1 : bytes) (ws2 : list event) (d2 : bytes) :
  let ext := ext_name exts e1 in
  let group := group_name groups e1 in
  let base := group +:+ "." +:+ ext in
  let n1 := (occurrences exts groups base pre + 1)%N in
  let n2 := (occurrences exts groups base (pre ++ e1 :: mid) + 1)%N in
  let path n := os_path_join out_dir [ext; file_name_of group ext n] in
  let evs :=
    (unpack_entries out_dir do_convert exts groups ∅ 0%N
       (pre ++ e1 :: mid ++ e2 :: post) s).2 in
  in_range exts groups e1 → in_range exts groups e2 →
  ext_name exts e2 = ext → group_name groups e2 = group →
  decoded (len pre) e1 (blob_at (content s) e1) ws1 d1 →
  decoded (len (pre ++ e1 :: mid)) e2 (blob_at (content s) e2) ws2 d2 →
  WriteFile (path n1) d1 ∈ evs ∧ WriteFile (path n2) d2 ∈ evs ∧ path n1 ≠ path n2.
Proof.
  intros ext group base n1 n2 path evs Hr1 Hr2 Hext Hgroup Hd1 Hd2.
  split_and!.
  - apply (primary_write_in_trace out_dir do_convert exts groups pre e1
             (mid ++ e2 :: post) s ws1 d1 Hr1 Hd1).
  - pose proof (primary_write_in_trace out_dir do_convert exts groups
                  (pre ++ e1 :: mid) e2 post s ws2 d2 Hr2 Hd2) as H.
    unfold base_name_of in H. rewrite Hext, Hgroup in H.
    rewrite <- app_assoc in H. exact H.
  - intros Heq. unfold path in Heq. cbn [os_path_join foldl] in Heq.
    apply join2_inj in Heq; [|apply file_name_of_head].
    apply file_name_of_inj in Heq. unfold n1, n2 in Heq.
    rewrite occurrences_app in Heq. cbn [occurrences] in Heq.
    rewrite decide_True in Heq by done. lia.
Qed.

(** X16. The suffix of a repeated name can collide with a group name that
    ends in the same suffix: after two entries named [g.x], the second is
    written to [g_02.x], and an entry of group [g_02] and extension [x] is
    written to the same path. Without conversion, the file there ends up
    with the payload of the last of them. *)
Theorem suffixed_name_is_overwritten (out_dir : string) (exts groups : list string)
    (g x : string) (e1 e2 e3 : entry) (s : stream) (fs : gmap string node)
    (ws1 ws2 ws3 : list event) (d1 d2 d3 : bytes) :
  let evs := (unpack_entries out_dir false exts groups ∅ 0%N [e1; e2; e3] s).2 in
  let p := os_path_join out_dir [x; g +:+ "_02." +:+ x] in
  in_range exts groups e1 → in_range exts groups e2 → in_range exts groups e3 →
  group_name groups e1 = g → ext_name exts e1 = x →
  group_name groups e2 = g → ext_name exts e2 = x →
  group_name groups e3 = g +:+ "_02" → ext_name exts e3 = x →
  decoded 0 e1 (blob_at (content s) e1) ws1 d1 →
  decoded 1 e2 (blob_at (content s) e2) ws2 d2 →
  decoded 2 e3 (blob_at (content s) e3) ws3 d3 →
  WriteFile p d2 ∈ evs ∧ WriteFile p d3 ∈ evs
  ∧ apply_events fs evs !! p = Some (File d3).
Proof.
  intros evs p Hr1 Hr2 Hr3 Hg1 Hx1 Hg2 Hx2 Hg3 Hx3 Hd1 Hd2 Hd3.
  assert (g +:+ "." +:+ x ≠ (g +:+ "_02") +:+ "." +:+ x) as Hne.
  { rewrite str_app_assoc. intros Heq%(inj (String.app g)). discriminate Heq. }
  pose proof (unpack_entry_decoded out_dir false exts groups ∅ 0 e1 s ws1 d1 Hr1 Hd1)
    as He1.
  set (nc1 := counted exts groups ∅ e1) in He1.
  assert (content (after_read s e1) = content s) as Hc1 by done.
  rewrite <- Hc1 in Hd2.
  pose proof (unpack_entry_decoded out_dir false exts groups nc1 1 e2 _ ws2 d2 Hr2 Hd2)
    as He2.
  set (nc2 := counted exts groups nc1 e2) in He2.
  assert (content (after_read (after_read s e1) e2) = content s) as Hc2 by done.
  rewrite <- Hc2 in Hd3.
  pose proof (unpack_entry_decoded out_dir false exts groups nc2 2 e3 _ ws3 d3 Hr3 Hd3)
    as He3.
  assert (next_count exts groups nc1 e2 = 2%N) as Hn2.
  { unfold next_count, nc1, counted, base_name_of.
    rewrite Hg1, Hx1, Hg2, Hx2, lookup_insert_eq. reflexivity. }
  assert (next_count exts groups nc2 e3 = 1%N) as Hn3.
  { unfold next_count, nc2, nc1, counted, base_name_of.
    rewrite Hg1, Hx1, Hg2, Hx2, Hg3, Hx3.
    rewrite !lookup_insert_ne by done. rewrite lookup_empty. reflexivity. }
  rewrite Hn2, Hg2, Hx2 in He2. rewrite Hn3, Hg3, Hx3 in He3.
  rewrite (out_path_of_later _ _ _ 2) in He2 by done.
  rewrite out_path_of_first in He3.
  change (g +:+ "_" +:+ format_02d 2 +:+ "." +:+ x) with (g +:+ "_02." +:+ x) in He2.
  assert ((g +:+ "_02") +:+ "." +:+ x = g +:+ "_02." +:+ x) as Hsame
    by exact (str_app_assoc g "_02" ("." +:+ x)).
  rewrite Hsame in He3. fold p in He2, He3.
  assert (evs = ((unpack_entry out_dir false exts groups ∅ 0 e1 s).2
                 ++ (unpack_entry out_dir false exts groups nc1 1 e2
                       (after_read s e1)).2
                 ++ [MakeDirs (os_path_dirname p)] ++ ws3)
                ++ [WriteFile p d3]) as Hevs.
  { unfold evs.
    rewrite (unpack_entries_cons _ _ _ _ _ _ _ [e2; e3] _ _ _ _ He1).
    change (0 + 1)%N with 1%N.
    rewrite (unpack_entries_cons _ _ _ _ _ _ _ [e3] _ _ _ _ He2).
    change (1 + 1)%N with 2%N.
    rewrite (unpack_entries_cons _ _ _ _ _ _ _ [] _ _ _ _ He3).
    rewrite He1, He2. cbn [unpack_entries ret snd].
    rewrite !app_nil_r. by rewrite <- !app_assoc. }
  split_and!.
  - rewrite Hevs, He2. cbn [snd]. rewrite !elem_of_app.
    left. right. left. right. right. left. apply list_elem_of_here.
  - rewrite Hevs. apply elem_of_app. right. apply list_elem_of_here.
  - rewrite Hevs. unfold apply_events. rewrite foldl_app. cbn [foldl apply_event].
    apply lookup_insert_eq.
Qed.

(** ** With and without conversion *)

Lemma extends_refl {S A} (m : M S A) : extends m m.
Proof. by intros s. Qed.

Lemma extends_bind {S A B} (m0 m1 : M S A) (k0 k1 : A → M S B) :
  extends m0 m1 → (∀ a, extends (k0 a) (k1 a)) →
  extends (bind m0 k0) (bind m1 k1).
Proof.
  intros Hm Hk s. unfold bind. destruct (Hm s) as [Hres Hsub].
  destruct (m0 s) as [[r0 s0] o0], (m1 s) as [[r1 s1] o1].
  simpl in Hres, Hsub. injection Hres as -> ->.
  destruct r1 as [a|e]; [|done].
  destruct (Hk a s1) as [Hres' Hsub'].
  destruct (k0 a s1) as [[r0' s0'] o0'], (k1 a s1) as [[r1' s1'] o1'].
  simpl in Hres', Hsub'. injection Hres' as -> ->.
  split; [done|]. by apply sublist_app.
Qed.

Lemma extends_maybe_convert {S} out_dir ext data name_tag :
  extends (S := S) (ret tt) (maybe_convert out_dir ext data name_tag).
Proof.
  intros s. rewrite maybe_convert_events. split; [done|]. apply sublist_nil_l.
Qed.

Lemma unpack_entry_extends out_dir exts groups name_counts i e :
  extends (unpack_entry out_dir false exts groups name_counts i e)
          (unpack_entry out_dir true exts groups name_counts i e).
Proof.
  destruct e as [[[[offset size] ext_id] group_id] method_id].
  unfold unpack_entry. cbv zeta.
  case_decide; [apply extends_refl|].
  do 3 (apply extends_bind; [apply extends_refl|intros ?]).
  case_decide; [apply extends_refl|].
  case_decide.
  - case_decide; [apply extends_refl|].
    destruct (zlib_decompress _) as [msg|data]; [apply extends_refl|].
    apply extends_bind; [apply extends_refl|intros _].
    apply extends_bind; [apply extends_refl|intros _].
    apply extends_bind; [apply extends_maybe_convert|intros _].
    apply extends_refl.
  - apply extends_bind; [apply extends_refl|intros _].
    apply extends_bind; [apply extends_maybe_convert|intros _].
    apply extends_refl.
Qed.

Lemma unpack_entries_extends out_dir exts groups name_counts i es :
  extends (unpack_entries out_dir false exts groups name_counts i es)
          (unpack_entries out_dir true exts groups name_counts i es).
Proof.
  revert name_counts i. induction es as [|e es IH]; intros name_counts i.
  - apply extends_refl.
  - simpl. apply extends_bind; [apply unpack_entry_extends|]. intros nc. apply IH.
Qed.


(** ** Directories before files *)

Lemma unpack_entry_prepared out_dir exts groups name_counts i e s l1 p d l2 :
  (unpack_entry out_dir false exts groups name_counts i e s).2
  = l1 ++ WriteFile p d :: l2 →
  MakeDirs (os_path_dirname p) ∈ l1.
Proof.
  destruct (decide (in_range exts groups e)) as [Hr|Hr].
  - destruct (skipped_or_decoded i e (blob_at (content s) e))
      as [[w Hs]|(ws & data & Hd)].
    + rewrite (unpack_entry_skipped _ _ _ _ _ _ _ _ _ Hr Hs). cbn [snd].
      destruct l1 as [|a [|b [|c l1]]]; intros Heq; discriminate Heq.
    + rewrite (unpack_entry_decoded _ _ _ _ _ _ _ _ _ _ Hr Hd). cbn [snd].
      rewrite app_nil_r.
      assert (ws = [] ∨ ∃ line, ws = [Print line]) as [->|[line ->]].
      { inversion Hd; subst; [by left|]. case_decide; [right; by eexists|by left]. }
      * destruct l1 as [|a [|b l1]]; intros Heq; try discriminate Heq.
        -- injection Heq as <- <- _ _. apply list_elem_of_here.
        -- injection Heq as _ _ Heq. by destruct l1.
      * destruct l1 as [|a [|b [|c l1]]]; intros Heq; try discriminate Heq.
        -- injection Heq as <- _ <- _ _. apply list_elem_of_here.
        -- injection Heq as _ _ _ Heq. by destruct l1.
  - rewrite (unpack_entry_bad_indices _ _ _ _ _ _ _ _ Hr). cbn [snd].
    destruct l1 as [|a [|b l1]]; intros Heq; discriminate Heq.
Qed.

(** X18. Without conversion, no file is written before its directory is
    made: every write of a path in the events of the entry loop comes
    after an [os.makedirs] of the [os.path.dirname] of that path. *)
Theorem primary_writes_follow_makedirs (out_dir : string) (exts groups : list string)
    (name_counts : gmap string N) (i : N) (es : list entry) (s : stream)
    (l1 : list event) (p : string) (d : bytes) (l2 : list event) :
  (unpack_entries out_dir false exts groups name_counts i es s).2
  = l1 ++ WriteFile p d :: l2 →
  MakeDirs (os_path_dirname p) ∈ l1.
Proof.
  revert name_counts i s l1 l2. induction es as [|e es IH]; intros nc i s l1 l2.
  - cbn [unpack_entries ret snd]. by destruct l1.
  - destruct (unpack_entry_ok out_dir false exts groups nc i e s)
      as (s1 & o1 & He & _).
    rewrite (unpack_entries_cons _ _ _ _ _ _ _ _ _ _ _ _ He).
    pose proof (unpack_entry_prepared out_dir exts groups nc i e s) as Hone.
    rewrite He in Hone. cbn [snd] in Hone.
    specialize (IH (if decide (in_range exts groups e)
                    then counted exts groups nc e else nc) (i + 1)%N s1).
    destruct (unpack_entries _ _ _ _ _ _ es s1) as [[r s2] o2].
    cbn [snd] in IH |- *. intros Heq.
    apply app_eq_app in Heq as [l [[-> Hl]|[-> Hl]]].
    + destruct l as [|x l].
      * simpl in Hl. symmetry in Hl. by apply (IH [] l2), elem_of_nil in Hl.
      * injection Hl as <- ->. by apply (Hone l1 p d l).
    + apply elem_of_app. right. by apply (IH l l2).
Qed.

End Program.

(** * Worked examples

    The program on the example archives, with [zlib_stored] for
    [zlib.decompress] and [utf8_replace] for the decoding of text. *)

(** The three same-named entries of [three_archive] come out, in table
    order, as [g.e], [g_02.e] and [g_03.e]. *)
Example three_archive_run :
  unpack zlib_stored utf8_replace three_archive "out" true
  = (Ok tt,
     [MakeDirs "out/e"; WriteFile "out/e/g.e" (list_byte_of_string "AAA");
      MakeDirs "out/e"; WriteFile "out/e/g_02.e" (list_byte_of_string "BBB");
      MakeDirs "out/e"; WriteFile "out/e/g_03.e" (list_byte_of_string "CCC");
      Print "Done. Wrote files to: out"]).
Proof. by vm_compute. Qed.

Example format_02d_examples :
  format_02d 2 = "02" ∧ format_02d 10 = "10" ∧ format_02d 100 = "100".
Proof. by vm_compute. Qed.

(** The tables the header of an archive yields are the ones the examples
    below run the loop on. *)
Example demo_archive_run :
  unpack zlib_stored utf8_replace demo_archive "out" true
  = (Ok tt,
     (unpack_entries zlib_stored "out" true ["e"; "sound"; "gscene"] ["g"; "s"]
        ∅ 0%N demo_entries (open_bytes demo_archive)).2
     ++ [Print "Done. Wrote files to: out"]).
Proof. by vm_compute. Qed.

Example read_len_str_example :
  read_len_str utf8_replace (open_bytes (len_str (list_byte_of_string "sound")))
  = (Ok "sound", {| content := len_str (list_byte_of_string "sound"); position := 9 |}, []).
Proof. by vm_compute. Qed.

(** Bytes that are not UTF-8 come back as U+FFFD; the read does not fail. *)
Example read_len_str_bad_text_example :
  read_len_str utf8_replace (open_bytes [x02; x00; x00; x00; xff; x41; x42])
  = (Ok (string_of_list_byte [xef; xbf; xbd; x41]),
     {| content := [x02; x00; x00; x00; xff; x41; x42]; position := 6 |}, []).
Proof. by vm_compute. Qed.

(** A file that starts with [PK] is refused before anything is written. *)
Lemma unpack_bad_magic_witness :
  unpack zlib_stored utf8_replace zip_file "out" true
  = (Raise (ValueError_bad_magic (take 4 zip_file)), []).
Proof.
  apply (unpack_bad_magic zlib_stored utf8_replace zip_file "out" true).
  vm_compute. discriminate.
Defined.




(** The first entry of [skip_archive] reads short: one warning, no file, and
    the loop goes on with the second entry. *)
Lemma soft_failure_skips_entry_witness :
  ∃ nc1 s1 pre w,
    unpack_entry zlib_stored "out" true ["e"] ["g"] ∅ 0%N (108, 7, 0, 0, 0)%N
      (open_bytes skip_archive)
    = (Ok nc1, s1, pre ++ [Print ("[warn] entry " +:+ str_of_int 0 +:+ ":" +:+ w)])
    ∧ (pre = [] ∨ ∃ d, pre = [MakeDirs d])
    ∧ ∃ nc2 s2 o,
        unpack_entries zlib_stored "out" true ["e"] ["g"] nc1 (0 + 1)%N
          [(108, 3, 0, 0, 0)%N] s1
        = (Ok nc2, s2, o)
        ∧ unpack_entries zlib_stored "out" true ["e"] ["g"] ∅ 0%N skip_entries
            (open_bytes skip_archive)
          = (Ok nc2, s2,
             pre ++ [Print ("[warn] entry " +:+ str_of_int 0 +:+ ":" +:+ w)] ++ o).
Proof.
  apply (soft_failure_skips_entry zlib_stored "out" true ["e"] ["g"] ∅ 0%N
           (108, 7, 0, 0, 0)%N [(108, 3, 0, 0, 0)%N] (open_bytes skip_archive)).
  right. split; [by vm_compute|]. left. vm_compute. discriminate.
Defined.

(** C4, as stated, fails on [skip_archive]: its only extracted entry, the
    first successfully extracted occurrence of group [g] and extension
    [e], is written as [g_02.e]; no [g.e] is written. *)
Lemma first_extracted_occurrence_counterexample :
  unpack zlib_stored utf8_replace skip_archive "out" true
  = (Ok tt,
     [MakeDirs "out/e"; Print "[warn] entry 0: short read at offset 108";
      MakeDirs "out/e"; WriteFile "out/e/g_02.e" (list_byte_of_string "BBB");
      Print "Done. Wrote files to: out"]).
Proof. by vm_compute. Qed.

(** The third entry of [three_archive] follows two entries of its base name. *)
Lemma nth_occurrence_path_witness :
  WriteFile "out/e/g_03.e" (list_byte_of_string "CCC")
  ∈ (unpack_entries zlib_stored "out" true ["e"] ["g"] ∅ 0%N three_entries
       (open_bytes three_archive)).2.
Proof.
  apply (nth_occurrence_path zlib_stored "out" true ["e"] ["g"]
           [(128, 3, 0, 0, 0); (131, 3, 0, 0, 0)]%N (134, 3, 0, 0, 0)%N []
           (open_bytes three_archive) [] (list_byte_of_string "CCC")).
  - by vm_compute.
  - apply (decoded_stored zlib_stored 2%N (134, 3, 0, 0, 0)%N
             (list_byte_of_string "CCC")); [reflexivity|discriminate].
Defined.

(** The stored and the deflated entry of [demo_archive]. *)
Lemma method_decides_decoding_witness :
  (unpack_entry zlib_stored "out" true ["e"; "sound"; "gscene"] ["g"; "s"] ∅ 0%N
     (252, 3, 0, 0, 0)%N (open_bytes demo_archive)).2
  = [MakeDirs "out/e"; WriteFile "out/e/g.e" (list_byte_of_string "AAA")]
  ∧ (unpack_entry zlib_stored "out" true ["e"; "sound"; "gscene"] ["g"; "s"]
       {["g.e" := 1%N]} 1%N (255, 18, 0, 0, 1)%N (open_bytes demo_archive)).2
    = [MakeDirs "out/e"; Print "[warn] entry 1: size mismatch 3 != 4";
       WriteFile "out/e/g_02.e" (list_byte_of_string "BBB")].
Proof.
  split.
  - refine (proj1 (method_decides_decoding zlib_stored "out" true
                     ["e"; "sound"; "gscene"] ["g"; "s"] ∅ 0%N (252, 3, 0, 0, 0)%N
                     (open_bytes demo_archive) _ _) _).
    + by vm_compute.
    + reflexivity.
    + discriminate.
  - refine (proj2 (method_decides_decoding zlib_stored "out" true
                     ["e"; "sound"; "gscene"] ["g"; "s"] {["g.e" := 1%N]} 1%N
                     (255, 18, 0, 0, 1)%N (open_bytes demo_archive) _ _)
              _ (list_byte_of_string "BBB") _ _).
    + by vm_compute.
    + reflexivity.
    + reflexivity.
    + vm_compute. discriminate.
    + reflexivity.
Defined.

(** C6, as stated, fails on [empty_meta_comp]: the slice has 15 bytes and
    its zlib stream is valid (it holds no byte, as declared), yet the
    decoder fails, with [EOFError], on the first field. *)
Lemma parse_meta_eof_counterexample :
  ¬ (len empty_meta_comp < 4)%N
  ∧ zlib_stored (drop 4 empty_meta_comp) = inr []
  ∧ parse_meta zlib_stored utf8_replace empty_meta_comp tt
    = (Raise (EOFError "unexpected EOF"), tt, []).
Proof. split_and!; [by vm_compute|by vm_compute|by vm_compute]. Qed.

(** The metadata block of [three_archive] holds the layout of its fields. *)
Lemma parse_meta_spec_witness :
  parse_meta zlib_stored utf8_replace three_meta_comp tt
  = (Ok {| unk0 := 1; unk1 := 2; method_name := "zlib";
           exts := ["e"]; groups := ["g"] |}, tt, []).
Proof.
  destruct (parse_meta_spec zlib_stored utf8_replace three_meta_comp tt)
    as (_ & _ & Hparse).
  destruct (Hparse (meta_layout 1 2 (list_byte_of_string "zlib")
                      [list_byte_of_string "e"] [list_byte_of_string "g"]))
    as (r & Hr & _ & Hlayout).
  - by vm_compute.
  - by vm_compute.
  - assert (r = Ok {| unk0 := 1; unk1 := 2; method_name := "zlib";
                      exts := ["e"]; groups := ["g"] |}) as ->.
    { apply (Hlayout 1%N 2%N (list_byte_of_string "zlib")
               [list_byte_of_string "e"] [list_byte_of_string "g"] []).
      - by vm_compute.
      - by vm_compute.
      - by vm_compute.
      - by vm_compute.
      - by vm_compute.
      - repeat constructor.
      - repeat constructor.
      - by rewrite app_nil_r. }
    rewrite Hr. by vm_compute.
Defined.


(** On [skip_archive] the short read of the first entry costs the second its
    unsuffixed name. *)
Lemma skipped_entry_consumes_count_witness :
  (∃ s1 o1,
     unpack_entry zlib_stored "out" false ["e"] ["g"] ∅ 0%N (108, 7, 0, 0, 0)%N
       (open_bytes skip_archive)
     = (Ok {["g.e" := 1%N]}, s1, o1))
  ∧ (unpack_entries zlib_stored "out" false ["e"] ["g"] ∅ 0%N skip_entries
       (open_bytes skip_archive)).2
    = [MakeDirs "out/e"; Print "[warn] entry 0: short read at offset 108";
       MakeDirs "out/e"; WriteFile "out/e/g_02.e" (list_byte_of_string "BBB")].
Proof.
  apply (skipped_entry_consumes_count zlib_stored "out" false ["e"] ["g"] ∅ 0%N
           (108, 7, 0, 0, 0)%N (108, 3, 0, 0, 0)%N (open_bytes skip_archive)
           " short read at offset 108" [] (list_byte_of_string "BBB")).
  - by vm_compute.
  - by vm_compute.
  - reflexivity.
  - reflexivity.
  - apply lookup_empty.
  - apply (skipped_short_read zlib_stored (108, 7, 0, 0, 0)%N). vm_compute. discriminate.
  - apply (decoded_stored zlib_stored (0 + 1)%N (108, 3, 0, 0, 0)%N
             (list_byte_of_string "BBB")); [reflexivity|discriminate].
Defined.

(** The three strings of a table, the second empty. *)
Lemma string_table_round_trip_witness :
  ∃ s', repeat_n 3 (read_len_str utf8_replace)
          (open_bytes (len_str (list_byte_of_string "sound") ++ len_str []
                       ++ len_str (list_byte_of_string "gscene") ++ [xff]))
        = (Ok ["sound"; ""; "gscene"], s', [])
        ∧ remaining s' = [xff]
        ∧ content s' = len_str (list_byte_of_string "sound") ++ len_str []
                       ++ len_str (list_byte_of_string "gscene") ++ [xff].
Proof.
  apply (string_table_round_trip utf8_replace
           [list_byte_of_string "sound"; []; list_byte_of_string "gscene"]
           (open_bytes (len_str (list_byte_of_string "sound") ++ len_str []
                        ++ len_str (list_byte_of_string "gscene") ++ [xff]))
           [xff]).
  - repeat constructor.
  - reflexivity.
Defined.

(** The metadata block of [three_archive]: two names in 34 bytes. *)
Lemma parse_meta_tables_fit_witness :
  ∃ meta_bytes,
    zlib_stored (drop 4 three_meta_comp) = inr meta_bytes
    ∧ (20 + 4 * (length ["e"] + length ["g"]) ≤ length meta_bytes)%nat
    ∧ tt = tt.
Proof.
  apply (parse_meta_tables_fit zlib_stored utf8_replace three_meta_comp tt tt
           {| unk0 := 1; unk1 := 2; method_name := "zlib";
              exts := ["e"]; groups := ["g"] |} []).
  by vm_compute.
Defined.

(** [empty_meta_comp] decompresses to no byte at all. *)
Lemma parse_meta_short_block_witness :
  ∃ e, is_eof e
       ∧ parse_meta zlib_stored utf8_replace empty_meta_comp tt
         = (Raise e, tt,
            meta_size_warning (len (@nil byte)) (le_value (take 4 empty_meta_comp))).
Proof.
  apply (parse_meta_short_block zlib_stored utf8_replace empty_meta_comp [] tt).
  - by vm_compute.
  - by vm_compute.
  - simpl. lia.
Defined.

(** The entry table of [three_archive], which starts at offset 68 and is
    followed by the three blocks. *)
Lemma entry_table_round_trip_witness :
  read_entries 3 {| content := three_archive; position := 68 |}
  = (Ok three_entries, advance {| content := three_archive; position := 68 |} 60, [])
  ∧ remaining (advance {| content := three_archive; position := 68 |} 60)
    = list_byte_of_string "AAABBBCCC".
Proof.
  apply (entry_table_round_trip three_entries
           {| content := three_archive; position := 68 |}
           (list_byte_of_string "AAABBBCCC")).
  - repeat (apply Forall_cons; split; [by vm_compute|]). by apply Forall_nil.
  - by vm_compute.
Defined.

(** The loop over [three_archive] with the file object at its start and
    right after the entry table. *)
Lemma entry_loop_ignores_cursor_witness :
  (unpack_entries zlib_stored "out" true ["e"] ["g"] ∅ 0%N three_entries
     (open_bytes three_archive)).2
  = (unpack_entries zlib_stored "out" true ["e"] ["g"] ∅ 0%N three_entries
       {| content := three_archive; position := 128 |}).2
  ∧ (unpack_entries zlib_stored "out" true ["e"] ["g"] ∅ 0%N three_entries
       (open_bytes three_archive)).1.1
    = (unpack_entries zlib_stored "out" true ["e"] ["g"] ∅ 0%N three_entries
         {| content := three_archive; position := 128 |}).1.1.
Proof.
  apply (entry_loop_ignores_cursor zlib_stored "out" true ["e"] ["g"] three_entries
           ∅ 0%N (open_bytes three_archive)
           {| content := three_archive; position := 128 |}).
  reflexivity.
Defined.



(** The artifact cut out of [riff_then_png]. *)
Lemma converted_artifact_has_signature_witness :
  ∃ magic r,
    (magic, r) ∈ signatures
    ∧ startswith magic (drop 4 riff_then_png) = true
    ∧ "out/_converted/gscene/t.png"
      = os_path_join "out" ["_converted"; "gscene"; "t" +:+ "." +:+ r]
    ∧ drop 4 riff_then_png ≠ [].
Proof.
  apply (converted_artifact_has_signature "out" "gscene" riff_then_png "t"
           "out/_converted/gscene/t.png" (drop 4 riff_then_png)).
  vm_compute. apply list_elem_of_further, list_elem_of_here.
Defined.


(** The first two entries of [three_archive]. *)
Lemma same_name_entries_get_distinct_paths_witness :
  WriteFile "out/e/g.e" (list_byte_of_string "AAA")
  ∈ (unpack_entries zlib_stored "out" true ["e"] ["g"] ∅ 0%N three_entries
       (open_bytes three_archive)).2
  ∧ WriteFile "out/e/g_02.e" (list_byte_of_string "BBB")
    ∈ (unpack_entries zlib_stored "out" true ["e"] ["g"] ∅ 0%N three_entries
         (open_bytes three_archive)).2
  ∧ "out/e/g.e" ≠ "out/e/g_02.e".
Proof.
  apply (same_name_entries_get_distinct_paths zlib_stored "out" true ["e"] ["g"]
           [] (128, 3, 0, 0, 0)%N [] (131, 3, 0, 0, 0)%N [(134, 3, 0, 0, 0)%N]
           (open_bytes three_archive)
           [] (list_byte_of_string "AAA") [] (list_byte_of_string "BBB")).
  - by vm_compute.
  - by vm_compute.
  - reflexivity.
  - reflexivity.
  - apply (decoded_stored zlib_stored 0%N (128, 3, 0, 0, 0)%N
             (list_byte_of_string "AAA")); [reflexivity|discriminate].
  - apply (decoded_stored zlib_stored 1%N (131, 3, 0, 0, 0)%N
             (list_byte_of_string "BBB")); [reflexivity|discriminate].
Defined.

(** The blocks of [three_archive] under the names [g.e], [g.e] and
    [g_02.e]: [BBB] is lost. *)
Lemma suffixed_name_is_overwritten_witness :
  WriteFile "out/e/g_02.e" (list_byte_of_string "BBB")
  ∈ (unpack_entries zlib_stored "out" false ["e"] ["g"; "g_02"] ∅ 0%N
       [(128, 3, 0, 0, 0); (131, 3, 0, 0, 0); (134, 3, 0, 1, 0)]%N
       (open_bytes three_archive)).2
  ∧ WriteFile "out/e/g_02.e" (list_byte_of_string "CCC")
    ∈ (unpack_entries zlib_stored "out" false ["e"] ["g"; "g_02"] ∅ 0%N
         [(128, 3, 0, 0, 0); (131, 3, 0, 0, 0); (134, 3, 0, 1, 0)]%N
         (open_bytes three_archive)).2
  ∧ apply_events ∅
      (unpack_entries zlib_stored "out" false ["e"] ["g"; "g_02"] ∅ 0%N
         [(128, 3, 0, 0, 0); (131, 3, 0, 0, 0); (134, 3, 0, 1, 0)]%N
         (open_bytes three_archive)).2
    !! "out/e/g_02.e"
    = Some (File (list_byte_of_string "CCC")).
Proof.
  apply (suffixed_name_is_overwritten zlib_stored "out" ["e"] ["g"; "g_02"] "g" "e"
           (128, 3, 0, 0, 0)%N (131, 3, 0, 0, 0)%N (134, 3, 0, 1, 0)%N
           (open_bytes three_archive) ∅
           [] [] [] (list_byte_of_string "AAA") (list_byte_of_string "BBB")
           (list_byte_of_string "CCC")).
  - by vm_compute.
  - by vm_compute.
  - by vm_compute.
  - reflexivity.
  - reflexivity.
  - reflexivity.
  - reflexivity.
  - reflexivity.
  - reflexivity.
  - apply (decoded_stored zlib_stored 0%N (128, 3, 0, 0, 0)%N
             (list_byte_of_string "AAA")); [reflexivity|discriminate].
  - apply (decoded_stored zlib_stored 1%N (131, 3, 0, 0, 0)%N
             (list_byte_of_string "BBB")); [reflexivity|discriminate].
  - apply (decoded_stored zlib_stored 2%N (134, 3, 0, 1, 0)%N
             (list_byte_of_string "CCC")); [reflexivity|discriminate].
Defined.

(** The second write of the loop over [three_archive]. *)
Lemma primary_writes_follow_makedirs_witness :
  MakeDirs (os_path_dirname "out/e/g_02.e")
  ∈ [MakeDirs "out/e"; WriteFile "out/e/g.e" (list_byte_of_string "AAA");
     MakeDirs "out/e"].
Proof.
  apply (primary_writes_follow_makedirs zlib_stored "out" ["e"] ["g"] ∅ 0%N
           three_entries (open_bytes three_archive)
           [MakeDirs "out/e"; WriteFile "out/e/g.e" (list_byte_of_string "AAA");
            MakeDirs "out/e"]
           "out/e/g_02.e" (list_byte_of_string "BBB")
           [MakeDirs "out/e"; WriteFile "out/e/g_03.e" (list_byte_of_string "CCC")]).
  by vm_compute.
Defined.
